(** * TOPSIS scoring engine ([Part3/app.py])

    A shallow embedding of the scoring engine [topsis_calculate] and the
    properties of its specification, followed by the functions around
    it: [validate_email], [send_email] and the request handler
    [submit].

    Modelling conventions.
    - A pandas [DataFrame] is an ordered list of named columns; a cell is
      an integer, a float or a text ([object]) value.  A missing value is
      the float [NaN], as in pandas.
    - The arithmetic is read in two ways.  [float] has the special
      values of IEEE-754 ([NaN], the two infinities) and exact real
      arithmetic on the finite values; on it stand the properties that
      do not depend on rounding, on overflow or on the sign of zero
      (validation, what is written, the shape of the output, ranks
      against scores, division by zero).  [Binary64] has the number
      formats of the machine, [int64] columns that wrap and binary64
      floats that round and overflow; on it stand the properties that
      do depend on them (the scoring formula, rescaled weights,
      reversed impacts).
    - A [str] is a [string] of characters with code points below 256.
    - A CSV file is modelled by the table it holds; the file system maps
      paths to tables. *)

From Stdlib Require Import Reals Lra Lia List String Ascii ZArith Bool Sorted.
From Stdlib Require Import Floats.SpecFloat.
From stdpp Require Import gmap strings.
Import ListNotations.

(** ** Floating-point values *)

Inductive float : Type :=
| NaN
| NInf
| Fin (r : R)
| PInf.

Definition Rsign (r : R) : comparison :=
  match total_order_T r 0 with
  | inleft (left _) => Lt
  | inleft (right _) => Eq
  | inright _ => Gt
  end.

Definition sign_mul (s t : comparison) : comparison :=
  match s, t with
  | Eq, _ | _, Eq => Eq
  | Lt, Lt | Gt, Gt => Gt
  | _, _ => Lt
  end.

(** The infinity of a given sign; an undetermined sign ([0 * inf],
    [0 / 0]) is [NaN]. *)
Definition inf_of (s : comparison) : float :=
  match s with
  | Lt => NInf
  | Eq => NaN
  | Gt => PInf
  end.

Definition fsign (x : float) : comparison :=
  match x with
  | NaN => Eq
  | NInf => Lt
  | Fin r => Rsign r
  | PInf => Gt
  end.

Definition isnan (x : float) : bool :=
  match x with
  | NaN => true
  | _ => false
  end.

Definition fneg (x : float) : float :=
  match x with
  | NaN => NaN
  | NInf => PInf
  | Fin r => Fin (- r)
  | PInf => NInf
  end.

Definition fadd (x y : float) : float :=
  match x, y with
  | NaN, _ | _, NaN => NaN
  | Fin a, Fin b => Fin (a + b)
  | PInf, NInf | NInf, PInf => NaN
  | PInf, _ | _, PInf => PInf
  | NInf, _ | _, NInf => NInf
  end.

Definition fsub (x y : float) : float := fadd x (fneg y).

Definition fmul (x y : float) : float :=
  match x, y with
  | NaN, _ | _, NaN => NaN
  | Fin a, Fin b => Fin (a * b)
  | _, _ => inf_of (sign_mul (fsign x) (fsign y))
  end.

(** [x / y]; a finite [x] over zero is the infinity of the sign of [x],
    and [0 / 0] is [NaN]. *)
Definition fdiv (x y : float) : float :=
  match x, y with
  | NaN, _ | _, NaN => NaN
  | Fin a, Fin b => if Req_dec_T b 0 then inf_of (Rsign a) else Fin (a / b)
  | Fin _, _ => Fin 0
  | _, Fin b => inf_of (sign_mul (fsign x) (if Req_dec_T b 0 then Gt else Rsign b))
  | _, _ => NaN
  end.

(** [x ** 2] *)
Definition fsquare (x : float) : float := fmul x x.

(** [np.sqrt] *)
Definition fsqrt (x : float) : float :=
  match x with
  | NaN | NInf => NaN
  | Fin r => if Rlt_dec r 0 then NaN else Fin (sqrt r)
  | PInf => PInf
  end.

(** [x < y]; false as soon as one side is [NaN]. *)
Definition flt (x y : float) : bool :=
  match x, y with
  | NaN, _ | _, NaN => false
  | _, NInf => false
  | NInf, _ => true
  | PInf, _ => false
  | Fin _, PInf => true
  | Fin a, Fin b => if Rlt_dec a b then true else false
  end.

Definition float_eq_dec (x y : float) : {x = y} + {x <> y}.
Proof.
  destruct x as [| |a|], y as [| |b|];
    try (left; reflexivity); try (right; discriminate).
  destruct (Req_dec_T a b) as [->|Hne]; [left; reflexivity|].
  right; intros [=]; contradiction.
Defined.

#[global] Instance float_eq_decision : EqDecision float := float_eq_dec.

(** Reductions that skip [NaN], as pandas does by default
    ([skipna=True]): [sum] of nothing is [0], [max] and [min] of nothing
    are [NaN]. *)

Definition nansum (l : list float) : float :=
  fold_left (fun acc x => if isnan x then acc else fadd acc x) l (Fin 0).

Definition nanmax2 (acc x : float) : float :=
  match acc, x with
  | NaN, _ => x
  | _, NaN => acc
  | _, _ => if flt acc x then x else acc
  end.

Definition nanmin2 (acc x : float) : float :=
  match acc, x with
  | NaN, _ => x
  | _, NaN => acc
  | _, _ => if flt x acc then x else acc
  end.

Definition nanmax (l : list float) : float := fold_left nanmax2 l NaN.
Definition nanmin (l : list float) : float := fold_left nanmin2 l NaN.

(** ** Strings *)

(** [str.isspace] on one character. *)
Definition isspace (c : ascii) : bool :=
  let n := nat_of_ascii c in
  (Nat.leb 9 n && Nat.leb n 13) || (Nat.leb 28 n && Nat.leb n 32)
  || Nat.eqb n 133 || Nat.eqb n 160.

Fixpoint lstrip (s : string) : string :=
  match s with
  | EmptyString => EmptyString
  | String c s' => if isspace c then lstrip s' else s
  end.

Fixpoint rstrip (s : string) : string :=
  match s with
  | EmptyString => EmptyString
  | String c s' =>
      match rstrip s' with
      | EmptyString => if isspace c then EmptyString else String c EmptyString
      | r => String c r
      end
  end.

(** [s.strip()] *)
Definition strip (s : string) : string := rstrip (lstrip s).

(** [s.split(sep)] for a one-character separator: never empty. *)
Fixpoint str_split (sep : ascii) (s : string) : list string :=
  match s with
  | EmptyString => [EmptyString]
  | String c s' =>
      if Ascii.eqb c sep then EmptyString :: str_split sep s'
      else match str_split sep s' with
           | t :: ts => String c t :: ts
           | [] => [String c EmptyString]
           end
  end.

(** *** Decimal literals *)

Definition is_digit (c : ascii) : bool :=
  let n := nat_of_ascii c in Nat.leb 48 n && Nat.leb n 57.

Definition digit_val (c : ascii) : Z := Z.of_nat (nat_of_ascii c - 48).

Definition lower (c : ascii) : ascii :=
  let n := nat_of_ascii c in
  if Nat.leb 65 n && Nat.leb n 90 then ascii_of_nat (n + 32) else c.

Fixpoint lowercase (s : string) : string :=
  match s with
  | EmptyString => EmptyString
  | String c s' => String (lower c) (lowercase s')
  end.

(** Reads [("_"? digit)*] after a first digit; [us] tells whether the
    underscore is allowed between digits. *)
Fixpoint digits_tail (us : bool) (s : string) : list Z * string :=
  match s with
  | String c s' =>
      if is_digit c then
        let (ds, r) := digits_tail us s' in (digit_val c :: ds, r)
      else if us && Ascii.eqb c "_" then
        match s' with
        | String c' s'' =>
            if is_digit c' then
              let (ds, r) := digits_tail us s'' in (digit_val c' :: ds, r)
            else ([], s)
        | EmptyString => ([], s)
        end
      else ([], s)
  | EmptyString => ([], s)
  end.

(** A digit part: [digit ("_"? digit)*]; [[]] when [s] does not start
    with a digit. *)
Definition digit_part (us : bool) (s : string) : list Z * string :=
  match s with
  | String c s' =>
      if is_digit c then
        let (ds, r) := digits_tail us s' in (digit_val c :: ds, r)
      else ([], s)
  | EmptyString => ([], s)
  end.

Definition Z_of_digits (ds : list Z) : Z :=
  fold_left (fun acc d => (10 * acc + d)%Z) ds 0%Z.

(** [[sign] digitpart] of an exponent. *)
Definition exponent_part (us : bool) (s : string) : option Z :=
  let '(neg, s1) :=
    match s with
    | String "+" r => (false, r)
    | String "-" r => (true, r)
    | _ => (false, s)
    end in
  match digit_part us s1 with
  | ([], _) => None
  | (ds, EmptyString) =>
      Some (if neg : bool then (- Z_of_digits ds)%Z else Z_of_digits ds)
  | _ => None
  end.

(** The unsigned literal [number [exponent]] as mantissa and power of
    ten. *)
Definition decimal_literal (us : bool) (s : string) : option (Z * Z) :=
  let (ip, s1) := digit_part us s in
  let '(fp, s2, dot) :=
    match s1 with
    | String "." r => let (fp, s2) := digit_part us r in (fp, s2, true)
    | _ => ([], s1, false)
    end in
  match ip, fp with
  | [], [] => None
  | _, _ =>
      let m := Z_of_digits (ip ++ fp) in
      let k := (- Z.of_nat (length fp))%Z in
      match s2 with
      | EmptyString => Some (m, k)
      | String c r =>
          if Ascii.eqb (lower c) "e" then
            match exponent_part us r with
            | Some e => Some (m, (k + e)%Z)
            | None => None
            end
          else None
      end
  end.

(** The real [m * 10 ^ k]. *)
Definition decimal_value (m k : Z) : R :=
  match k with
  | Z0 => IZR m
  | Zpos _ => IZR (m * 10 ^ k)
  | Zneg _ => (IZR m / IZR (10 ^ (- k)))%R
  end.

(** The float written by [s]: optional sign, then [inf], [infinity],
    [nan] (in any case) or a decimal literal, between optional
    whitespace. *)
Definition parse_float (us : bool) (s : string) : option float :=
  let s0 := strip s in
  let '(neg, s1) :=
    match s0 with
    | String "+" r => (false, r)
    | String "-" r => (true, r)
    | _ => (false, s0)
    end in
  let l := lowercase s1 in
  if String.eqb l "inf" || String.eqb l "infinity" then
    Some (if neg : bool then NInf else PInf)
  else if String.eqb l "nan" then Some NaN
  else
    match decimal_literal us s1 with
    | Some (m, k) => Some (Fin (decimal_value (if neg then (- m)%Z else m) k))
    | None => None
    end.

(** Python's [float(s)] on a [str]: [None] stands for [ValueError]. *)
Definition float_of_string (s : string) : option float := parse_float true s.

(** ** Data frames *)

Inductive cell : Type :=
| CInt (z : Z)
| CFloat (x : float)
| CStr (s : string).

(** A [DataFrame]: its columns in order, each with its label.  The
    labels read from a file are pairwise distinct and all columns have
    the length of the index. *)
Definition dataframe : Type := list (string * list cell).

Definition columns (df : dataframe) : list string := map fst df.

(** [len(df.index)] *)
Definition nrows (df : dataframe) : nat :=
  match df with
  | [] => 0
  | (_, col) :: _ => length col
  end.

(** [pd.to_numeric(_, errors="coerce")] on one value: what is not a
    number becomes [NaN].  The texts read as numbers are taken to be
    the float literals, without underscores. *)
Definition to_numeric (c : cell) : float :=
  match c with
  | CInt z => Fin (IZR z)
  | CFloat x => x
  | CStr s =>
      match parse_float false s with
      | Some x => x
      | None => NaN
      end
  end.

(** [df[name] = col]: replaces the column labelled [name], or appends a
    new last column when there is none. *)
Fixpoint set_col (df : dataframe) (name : string) (col : list cell) : dataframe :=
  match df with
  | [] => [(name, col)]
  | (n, c) :: df' =>
      if String.eqb n name then (name, col) :: df'
      else (n, c) :: set_col df' name col
  end.

(** ** Exceptions *)

Inductive exn : Type :=
| Exception (msg : string)
| IntCastingNaNError
| FileNotFoundError.

Inductive result (A : Type) : Type :=
| Ok (a : A)
| Raise (e : exn).

Arguments Ok {A} a.
Arguments Raise {A} e.

#[global] Instance result_ret : MRet result := fun A a => Ok a.

#[global] Instance result_bind : MBind result := fun A B f m =>
  match m with
  | Ok a => f a
  | Raise e => Raise e
  end.

(** [if cond: raise Exception(msg)] *)
Definition raise_if (cond : bool) (msg : string) : result unit :=
  if cond then Raise (Exception msg) else Ok tt.

(** ** Scoring: lines 64-89 of [topsis_calculate]

    The numeric frame [data] is a list of columns. *)

Definition matrix : Type := list (list float).

(** [np.sqrt((data ** 2).sum())]: one norm per column. *)
Definition col_norms (data : matrix) : list float :=
  map (fun col => fsqrt (nansum (map fsquare col))) data.

(** A frame combined with one value per column, column by column
    ([data / norms], [norm_data * weights], [weighted_data - ideal]). *)
Definition broadcast (op : float -> float -> float)
    (data : matrix) (v : list float) : matrix :=
  zip_with (fun col d => map (fun x => op x d) col) data v.

(** [frame.sum(axis=1)] over an index of [m] rows. *)
Definition row_sums (m : nat) (data : matrix) : list float :=
  map (fun i => nansum (map (fun col => nth i col NaN) data)) (seq 0 m).

(** The loop of lines 74-80: the ideal best and ideal worst value of
    every column. *)
Fixpoint ideal_points (weighted_data : matrix) (impacts : list string)
    : list float * list float :=
  match weighted_data, impacts with
  | col :: cols, i :: impacts' =>
      let (best, worst) := ideal_points cols impacts' in
      if String.eqb i "+" then (nanmax col :: best, nanmin col :: worst)
      else (nanmin col :: best, nanmax col :: worst)
  | _, _ => ([], [])
  end.

(** [np.sqrt(((weighted_data - ideal) ** 2).sum(axis=1))] *)
Definition distances (m : nat) (weighted_data : matrix) (ideal : list float)
    : list float :=
  map fsqrt (row_sums m (map (map fsquare) (broadcast fsub weighted_data ideal))).

Definition weighted (data : matrix) (weights : list float) : matrix :=
  broadcast fmul (broadcast fdiv data (col_norms data)) weights.

Definition topsis_score (m : nat) (data : matrix) (weights : list float)
    (impacts : list string) : list float :=
  let norm_data := broadcast fdiv data (col_norms data) in
  let weighted_data := broadcast fmul norm_data weights in
  let (ideal_best, ideal_worst) := ideal_points weighted_data impacts in
  let dist_best := distances m weighted_data ideal_best in
  let dist_worst := distances m weighted_data ideal_worst in
  zip_with fdiv dist_worst (zip_with fadd dist_best dist_worst).

(** ** Ranking: [Series.rank(ascending=False, method="dense")] *)

(** Inserts [x] in a strictly descending list, unless it is there. *)
Fixpoint insert_desc (x : float) (l : list float) : list float :=
  match l with
  | [] => [x]
  | y :: l' =>
      if flt y x then x :: l
      else if float_eq_dec x y then l
      else y :: insert_desc x l'
  end.

(** The distinct values of a series in descending order, [NaN] left
    out. *)
Definition distinct_desc (xs : list float) : list float :=
  fold_right (fun x acc => if isnan x then acc else insert_desc x acc) [] xs.

(** The 1-based position of [x] in [l]. *)
Fixpoint position (x : float) (l : list float) : Z :=
  match l with
  | [] => 1
  | y :: l' => if float_eq_dec x y then 1 else (1 + position x l')%Z
  end.

(** The dense descending rank of every value; the rank of [NaN] is
    [NaN], written [None]. *)
Definition rank_dense_desc (xs : list float) : list (option Z) :=
  let ds := distinct_desc xs in
  map (fun x => if isnan x then None else Some (position x ds)) xs.

(** [Series.astype(int)] on ranks: a [NaN] cannot be converted. *)
Definition astype_int (ranks : list (option Z)) : result (list Z) :=
  match mapM (fun r => r) ranks with
  | Some rs => Ok rs
  | None => Raise IntCastingNaNError
  end.

(** ** [topsis_calculate] *)

Definition msg_columns : string := "Input file must contain 3 or more columns".
Definition msg_numeric : string := "All criteria columns must contain numeric values.".
Definition msg_count : string := "Weights and impacts count mismatch.".
Definition msg_match : string := "Weights/impacts must match criteria columns.".
Definition msg_weights : string := "Weights must be numeric.".
Definition msg_impacts : string := "Impacts must be '+' or '-'.".

(** [[t.strip() for t in s.split(",")]] *)
Definition tokens (s : string) : list string := map strip (str_split "," s).

Definition is_impact (i : string) : bool := String.eqb i "+" || String.eqb i "-".

(** Lines 33-60: the checks, in program order, and the values the
    scoring works on. *)
Definition topsis_validate (df : dataframe) (weights_str impacts_str : string)
    : result (matrix * list float * list string) :=
  _ ← raise_if (length df <? 3) msg_columns;
  let data := map (fun c => map to_numeric (snd c)) (tl df) in
  _ ← raise_if (existsb (existsb isnan) data) msg_numeric;
  let weights := tokens weights_str in
  let impacts := tokens impacts_str in
  _ ← raise_if (negb (length weights =? length impacts)) msg_count;
  _ ← raise_if (negb (length weights =? length data)) msg_match;
  weights ← match mapM float_of_string weights with
            | Some ws => Ok ws
            | None => Raise (Exception msg_weights)
            end;
  _ ← raise_if (existsb (fun i => negb (is_impact i)) impacts) msg_impacts;
  mret (data, weights, impacts).

(** [df[name]] *)
Fixpoint get_col (df : dataframe) (name : string) : option (list cell) :=
  match df with
  | [] => None
  | (n, c) :: df' => if String.eqb n name then Some c else get_col df' name
  end.

(** Lines 64-92: scores and ranks, stored in the frame. *)
Definition topsis_rank (df : dataframe) (data : matrix) (weights : list float)
    (impacts : list string) : result dataframe :=
  let score := topsis_score (nrows df) data weights impacts in
  let df1 := set_col df "Topsis Score" (map CFloat score) in
  rank ← astype_int (rank_dense_desc score);
  mret (set_col df1 "Rank" (map CInt rank)).

(** Lines 33-92: from the frame read to the frame written. *)
Definition topsis_frame (df : dataframe) (weights_str impacts_str : string)
    : result dataframe :=
  '(data, weights, impacts) ← topsis_validate df weights_str impacts_str;
  topsis_rank df data weights impacts.

(** The whole function on a file system: [pd.read_csv(input_file)],
    the computation, [df.to_csv(output_file, index=False)]. *)
Definition topsis_calculate (fs : gmap string dataframe)
    (input_file weights_str impacts_str output_file : string)
    : gmap string dataframe * result unit :=
  match fs !! input_file with
  | None => (fs, Raise FileNotFoundError)
  | Some df =>
      match topsis_frame df weights_str impacts_str with
      | Raise e => (fs, Raise e)
      | Ok out => (<[output_file := out]> fs, Ok tt)
      end
  end.

(** ** The specification's vocabulary *)

(** *** Validation (section 4.1 of the specification)

    The six conditions in the words of the specification, each with its
    message; [first_failure] is the message of the first condition that
    applies. *)

Definition too_few_columns (df : dataframe) : bool :=
  length (columns df) <? 3.

Definition non_numeric_cell (df : dataframe) : bool :=
  existsb (fun c => existsb (fun v => isnan (to_numeric v)) (snd c)) (tl df).

Definition count_mismatch (weights_str impacts_str : string) : bool :=
  negb (length (tokens weights_str) =? length (tokens impacts_str)).

Definition criteria_mismatch (df : dataframe) (weights_str : string) : bool :=
  negb (length (tokens weights_str) =? length (columns df) - 1).

Definition non_numeric_weight (weights_str : string) : bool :=
  existsb (fun t => match float_of_string t with Some _ => false | None => true end)
    (tokens weights_str).

Definition bad_impact (impacts_str : string) : bool :=
  existsb (fun t => negb (String.eqb t "+") && negb (String.eqb t "-"))
    (tokens impacts_str).

Definition checks (df : dataframe) (weights_str impacts_str : string) : list bool :=
  [ too_few_columns df;
    non_numeric_cell df;
    count_mismatch weights_str impacts_str;
    criteria_mismatch df weights_str;
    non_numeric_weight weights_str;
    bad_impact impacts_str ].

Fixpoint first_applicable (cs : list bool) (msgs : list string) : option string :=
  match cs, msgs with
  | c :: cs', m :: msgs' => if c then Some m else first_applicable cs' msgs'
  | _, _ => None
  end.

Definition first_failure (msgs : list string) (df : dataframe)
    (weights_str impacts_str : string) : option string :=
  first_applicable (checks df weights_str impacts_str) msgs.

(** The messages as the specification documents them ... *)
Definition documented_messages : list string :=
  [ "Input file must contain 3 or more columns.";
    "All criteria columns must contain numeric values.";
    "Weights and impacts count mismatch.";
    "Weights/impacts must match criteria columns.";
    "Weights must be numeric.";
    "Impacts must be '+' or '-'." ].

(** ... and as the program raises them: the first one has no final
    period. *)
Definition raised_messages : list string :=
  [ msg_columns; msg_numeric; msg_count; msg_match; msg_weights; msg_impacts ].

(** *** Whitespace around tokens *)

Definition whitespace (s : string) : Prop :=
  Forall (fun c => isspace c = true) (list_ascii_of_string s).


(** *** A positive real weight *)

Definition positive_real (x : float) : Prop :=
  exists r, x = Fin r /\ (0 < r)%R.

(** *** Dense ranking *)

(** [ds] lists the distinct values of [xs] in descending order. *)
Definition distinct_descending (xs ds : list float) : Prop :=
  StronglySorted (fun a b => flt b a = true) ds /\
  (forall x, In x ds <-> In x xs).

(** [r] is the 1-based position of [x] in [ds]. *)
Definition position_in (ds : list float) (x : float) (r : Z) : Prop :=
  (1 <= r)%Z /\ nth_error ds (Z.to_nat (r - 1)) = Some x.

(** ** Example tables *)

Definition two_columns : dataframe :=
  [ ("Name", [CStr "A"; CStr "B"]);
    ("P1", [CInt 1; CInt 2]) ]%string.

Definition three_columns : dataframe :=
  [ ("Name", [CStr "A"; CStr "B"]);
    ("P1", [CInt 1; CInt 0]);
    ("P2", [CInt 0; CInt 1]) ]%string.

(** The numeric part of [three_columns]. *)
Definition example_data : matrix := [[Fin 1; Fin 0]; [Fin 0; Fin 1]].

(** A list in strictly descending order. *)
Definition descending (l : list float) : Prop :=
  StronglySorted (fun a b => flt b a = true) l.

(** ** The table of a successful run *)

(** The integer ranks of scores none of which is [NaN]. *)
Definition ranks_of (score : list float) : list Z :=
  map (fun x => position x (distinct_desc score)) score.

Definition output_frame (df : dataframe) (score : list float) : dataframe :=
  set_col (set_col df "Topsis Score" (map CFloat score))
    "Rank" (map CInt (ranks_of score)).



(** A table that already has a column labelled [Rank]. *)
Definition rank_table : dataframe :=
  [ ("Name", [CStr "A"; CStr "B"]);
    ("Rank", [CInt 1; CInt 0]);
    ("P2", [CInt 0; CInt 1]) ]%string.

(** Two alternatives with the same values. *)
Definition same_rows : dataframe :=
  [ ("Name", [CStr "A"; CStr "B"]);
    ("P1", [CInt 1; CInt 1]);
    ("P2", [CInt 1; CInt 1]) ]%string.

(** A criterion column of zeros. *)
Definition zero_column : dataframe :=
  [ ("Name", [CStr "A"; CStr "B"]);
    ("P1", [CInt 0; CInt 0]);
    ("P2", [CInt 0; CInt 1]) ]%string.

(** A criterion with a large integer value. *)
Definition large_frame : dataframe :=
  [ ("Name", [CStr "A"; CStr "B"]);
    ("P1", [CInt 4000000000; CInt 1]);
    ("P2", [CInt 1; CInt 2]) ]%string.

Definition zero_data : matrix := [[Fin 0; Fin 0]; [Fin 0; Fin 1]].

(** ** The two distances of every alternative (lines 86-87) *)

Definition dist_best (m : nat) (data : matrix) (weights : list float)
    (impacts : list string) : list float :=
  distances m (weighted data weights)
    (fst (ideal_points (weighted data weights) impacts)).

Definition dist_worst (m : nat) (data : matrix) (weights : list float)
    (impacts : list string) : list float :=
  distances m (weighted data weights)
    (snd (ideal_points (weighted data weights) impacts)).

(** The other impact. *)
Definition flip_impact (i : string) : string :=
  if String.eqb i "+" then "-"%string else "+"%string.

(** A column whose [m] entries are the same value. *)
Definition constant_column (m : nat) (col : list float) : Prop :=
  exists v, col = repeat v m.

Definition zero_or_nan (x : float) : Prop := x = NaN \/ x = Fin 0.

(** The number of occurrences of a character. *)
Fixpoint count_char (c : ascii) (s : string) : nat :=
  match s with
  | EmptyString => 0
  | String c' s' => (if Ascii.eqb c' c then 1 else 0) + count_char c s'
  end.

(** [sep.join(l)] *)
Fixpoint str_join (sep : string) (l : list string) : string :=
  match l with
  | [] => EmptyString
  | [t] => t
  | t :: l' => (t ++ sep ++ str_join sep l')%string
  end.

(** ** Regular expressions (module [re]) and [validate_email] *)

Inductive regex : Type :=
| RNone
| REps
| RChar (p : ascii -> bool)
| RCat (r1 r2 : regex)
| RAlt (r1 r2 : regex)
| RStar (r : regex).

(** [r+] and [r{2,}] *)
Definition RPlus (r : regex) : regex := RCat r (RStar r).
Definition RTwoOrMore (r : regex) : regex := RCat r (RCat r (RStar r)).

(** The strings a pattern matches in full. *)
Inductive matches : regex -> string -> Prop :=
| MEps : matches REps EmptyString
| MChar p c : p c = true -> matches (RChar p) (String c EmptyString)
| MCat r1 r2 s1 s2 :
    matches r1 s1 -> matches r2 s2 -> matches (RCat r1 r2) (s1 ++ s2)
| MAltL r1 r2 s : matches r1 s -> matches (RAlt r1 r2) s
| MAltR r1 r2 s : matches r2 s -> matches (RAlt r1 r2) s
| MStarNil r : matches (RStar r) EmptyString
| MStarApp r s1 s2 :
    matches r s1 -> matches (RStar r) s2 -> matches (RStar r) (s1 ++ s2).

(** Matching by derivatives. *)
Fixpoint nullable (r : regex) : bool :=
  match r with
  | RNone => false
  | REps => true
  | RChar _ => false
  | RCat r1 r2 => nullable r1 && nullable r2
  | RAlt r1 r2 => nullable r1 || nullable r2
  | RStar _ => true
  end.

Fixpoint deriv (c : ascii) (r : regex) : regex :=
  match r with
  | RNone => RNone
  | REps => RNone
  | RChar p => if p c then REps else RNone
  | RCat r1 r2 =>
      if nullable r1 then RAlt (RCat (deriv c r1) r2) (deriv c r2)
      else RCat (deriv c r1) r2
  | RAlt r1 r2 => RAlt (deriv c r1) (deriv c r2)
  | RStar r' => RCat (deriv c r') (RStar r')
  end.

Fixpoint accepts (r : regex) (s : string) : bool :=
  match s with
  | EmptyString => nullable r
  | String c s' => accepts (deriv c r) s'
  end.

Definition in_range (lo hi : nat) (c : ascii) : bool :=
  Nat.leb lo (nat_of_ascii c) && Nat.leb (nat_of_ascii c) hi.

(** [[a-zA-Z]] *)
Definition is_letter (c : ascii) : bool :=
  in_range 97 122 c || in_range 65 90 c.

(** [[a-zA-Z0-9._%+-]] *)
Definition local_char (c : ascii) : bool :=
  is_letter c || in_range 48 57 c
  || Ascii.eqb c "." || Ascii.eqb c "_" || Ascii.eqb c "%"
  || Ascii.eqb c "+" || Ascii.eqb c "-".

(** [[a-zA-Z0-9.-]] *)
Definition domain_char (c : ascii) : bool :=
  is_letter c || in_range 48 57 c || Ascii.eqb c "." || Ascii.eqb c "-".

Definition newline : ascii := ascii_of_nat 10.

(** [$] without [re.MULTILINE]: the end of the string, or just before a
    newline that ends it. *)
Definition end_of_string : regex := RAlt REps (RChar (Ascii.eqb newline)).

(** The pattern of line 23; [re.match] anchors it at the start. *)
Definition email_pattern : regex :=
  RCat (RPlus (RChar local_char))
    (RCat (RChar (Ascii.eqb "@"))
       (RCat (RPlus (RChar domain_char))
          (RCat (RChar (Ascii.eqb "."))
             (RCat (RTwoOrMore (RChar is_letter)) end_of_string)))).

(** [re.match(pattern, email) is not None] *)
Definition validate_email (email : string) : bool := accepts email_pattern email.

(** Every character of a string satisfies [p]. *)
Definition all_chars (p : ascii -> bool) (s : string) : Prop :=
  Forall (fun c => p c = true) (list_ascii_of_string s).

(** ** Sending the result by e-mail: [send_email] (lines 100-162) *)

(** [str.lower] on one character (code points below 256). *)
Definition py_lower_char (c : ascii) : ascii :=
  let n := nat_of_ascii c in
  if in_range 65 90 c || in_range 192 214 c || in_range 216 222 c
  then ascii_of_nat (n + 32) else c.

Fixpoint py_lower (s : string) : string :=
  match s with
  | EmptyString => EmptyString
  | String c s' => String (py_lower_char c) (py_lower s')
  end.

(** [os.path.basename]: what follows the last slash. *)
Definition basename (path : string) : string :=
  List.last (str_split "/" path) EmptyString.

Record message : Type := {
  msg_subject : string;
  msg_from : string;
  msg_to : string;
  msg_content : string;
  msg_attachment_name : string;
  msg_attachment : dataframe
}.

(** The calls made on [smtplib]. *)
Inductive smtp_action : Type :=
| SMTP_SSL (host : string) (port timeout : nat)
| SMTP (host : string) (port timeout : nat)
| starttls
| login (user password : string)
| send_message (msg : message).

(** Lines 129-143: server, port and whether SSL is used, from the
    domain of the sender. *)
Definition office_domains : list string :=
  ["outlook.com"; "hotmail.com"; "live.com"; "office365.com"; "thapar.edu"]%string.

Definition smtp_settings (domain : string) : string * nat * bool :=
  if String.eqb domain "gmail.com" then ("smtp.gmail.com"%string, 465, true)
  else if existsb (String.eqb domain) office_domains
       then ("smtp.office365.com"%string, 587, false)
       else ("smtp.gmail.com"%string, 465, true).

(** [SENDER_EMAIL.split("@")[-1].lower()] *)
Definition sender_domain (sender : string) : string :=
  py_lower (List.last (str_split "@" sender) EmptyString).

(** [send_email], with the environment variables and the file system it
    reads; the result is the sequence of SMTP calls and the lines
    printed.  Every exception is caught (line 161).  The SMTP server is
    taken to accept every call. *)
Definition send_email (env : gmap string string) (fs : gmap string dataframe)
    (receiver_email attachment_path : string) : list smtp_action * list string :=
  match env !! "EMAIL"%string, env !! "EMAIL_PASSWORD"%string with
  | Some sender, Some password =>
      if String.eqb sender "" || String.eqb password "" then
        ([], ["Email credentials not configured."%string])
      else
        match fs !! attachment_path with
        | None =>
            ([], [("Email failed: [Errno 2] No such file or directory: '"
                   ++ attachment_path ++ "'")%string])
        | Some data =>
            let msg := {| msg_subject := "TOPSIS Result File";
                          msg_from := sender;
                          msg_to := receiver_email;
                          msg_content := "Your TOPSIS result file is attached.";
                          msg_attachment_name := basename attachment_path;
                          msg_attachment := data |} in
            let '(smtp_server, port, use_ssl) := smtp_settings (sender_domain sender) in
            (if use_ssl : bool then
               [SMTP_SSL smtp_server port 20; login sender password; send_message msg]
             else
               [SMTP smtp_server port 20; starttls; login sender password;
                send_message msg],
             [("Email sent successfully via " ++ smtp_server)%string])
        end
  | _, _ => ([], ["Email credentials not configured."%string])
  end.

(** ** The upload form: [submit] (lines 178-206) *)

Definition UPLOAD_FOLDER : string := "uploads".
Definition RESULT_FOLDER : string := "results".

(** [s.endswith(suffix)] *)
Fixpoint str_endswith (s suffix : string) : bool :=
  String.eqb s suffix ||
  match s with
  | EmptyString => false
  | String _ s' => str_endswith s' suffix
  end.

(** [os.path.join(a, b)] on POSIX. *)
Definition path_join (a b : string) : string :=
  match b with
  | String "/" _ => b
  | _ => if String.eqb a "" || str_endswith a "/" then (a ++ b)%string
         else (a ++ "/" ++ b)%string
  end.

Record upload : Type := { filename : string; file_content : dataframe }.

(** The request: the uploaded file and the form fields, [None] for a
    field that is absent. *)
Record request : Type := {
  req_file : option upload;
  req_weights : option string;
  req_impacts : option string;
  req_email : option string
}.

Inductive response : Type :=
| render_error (error : string)
| send_file (path : string).

(** [str(e)] *)
Definition str_of_exn (e : exn) : string :=
  match e with
  | Exception msg => msg
  | IntCastingNaNError => "Cannot convert non-finite values (NA or inf) to integer"
  | FileNotFoundError => "[Errno 2] No such file or directory"
  end.

(** [request.form.get(name, "").strip()] *)
Definition form_field (v : option string) : string :=
  strip (match v with Some s => s | None => EmptyString end).

(** [submit] on a file system: the new file system, the deliveries
    started by [send_email_async] (address and attachment path) and the
    response.  An uploaded file is modelled by the table it holds, and
    [file.save] by a write at its path. *)
Definition submit (fs : gmap string dataframe) (req : request)
    : gmap string dataframe * list (string * string) * response :=
  let weights := form_field (req_weights req) in
  let impacts := form_field (req_impacts req) in
  let email := form_field (req_email req) in
  match req_file req with
  | None => (fs, [], render_error "Please upload a CSV file.")
  | Some file =>
      if String.eqb (filename file) "" then
        (fs, [], render_error "Please upload a CSV file.")
      else if negb (str_endswith (filename file) ".csv") then
        (fs, [], render_error "Only CSV files allowed.")
      else
        let input_path := path_join UPLOAD_FOLDER (filename file) in
        let fs1 := <[input_path := file_content file]> fs in
        let output_path := path_join RESULT_FOLDER "Result.csv" in
        match topsis_calculate fs1 input_path weights impacts output_path with
        | (fs2, Raise e) => (fs2, [], render_error (str_of_exn e))
        | (fs2, Ok _) =>
            (fs2,
             if negb (String.eqb email "") && validate_email email
             then [(email, output_path)] else [],
             send_file output_path)
        end
  end.

(** ** The arithmetic of the machine

    The scoring lines once more, with the number formats pandas
    computes in.  A criteria column is an [int64] column (two's
    complement, wrapping silently) or a [float64] column; a float is an
    IEEE-754 binary64 number, every operation rounded to nearest, ties
    to even, as specified by [SpecFloat].  Sums are taken in index
    order: numpy adds in this order when there are fewer than eight
    summands and may group a longer sum in blocks. *)

Module Binary64.

Definition prec : Z := 53.
Definition emax : Z := 1024.

Definition float64 : Type := spec_float.

Definition nan : float64 := S754_nan.
Definition zero : float64 := S754_zero false.

Definition add : float64 -> float64 -> float64 := SFadd prec emax.
Definition sub : float64 -> float64 -> float64 := SFsub prec emax.
Definition mul : float64 -> float64 -> float64 := SFmul prec emax.
Definition div : float64 -> float64 -> float64 := SFdiv prec emax.
Definition sqrt : float64 -> float64 := SFsqrt prec emax.
Definition leb : float64 -> float64 -> bool := SFleb.
Definition ltb : float64 -> float64 -> bool := SFltb.
Definition eqb : float64 -> float64 -> bool := SFeqb.

Definition isnan (x : float64) : bool :=
  match x with
  | S754_nan => true
  | _ => false
  end.

(** [x ** 2] on a float: numpy squares by multiplying. *)
Definition square (x : float64) : float64 := mul x x.

(** The conversion of an integer to [float64], rounded to nearest. *)
Definition of_int (z : Z) : float64 := binary_normalize prec emax z 0 false.

Definition one : float64 := of_int 1.

(** The value an [int64] holds after an operation whose exact result
    is [z]. *)
Definition wrap (z : Z) : Z := ((z + 2 ^ 63) mod 2 ^ 64 - 2 ^ 63)%Z.

(** A criteria column after [pd.to_numeric]: [read_csv] gives a column
    of integers the dtype [int64] and a column with a decimal point or
    an exponent the dtype [float64]. *)
Inductive column : Type :=
| Int64 (zs : list Z)
| Float64 (xs : list float64).

(** The values of a column in an operation with floats. *)
Definition values (c : column) : list float64 :=
  match c with
  | Int64 zs => map of_int zs
  | Float64 xs => xs
  end.

(** The reductions of pandas leave [NaN] out ([skipna=True]): in a sum
    it counts as zero. *)
Definition skipna (x : float64) : float64 := if isnan x then zero else x.

Definition nansum (xs : list float64) : float64 :=
  fold_left add (map skipna xs) zero.

Definition max2 (a b : float64) : float64 := if leb b a then a else b.
Definition min2 (a b : float64) : float64 := if leb a b then a else b.

Definition nanmax (xs : list float64) : float64 :=
  match List.filter (fun x => negb (isnan x)) xs with
  | [] => nan
  | x :: xs' => fold_left max2 xs' x
  end.

Definition nanmin (xs : list float64) : float64 :=
  match List.filter (fun x => negb (isnan x)) xs with
  | [] => nan
  | x :: xs' => fold_left min2 xs' x
  end.

(** [(data ** 2).sum()] for one column: an [int64] column is squared
    and summed in [int64]; the sum becomes a float under [np.sqrt]. *)
Definition sum_squares (c : column) : float64 :=
  match c with
  | Int64 zs => of_int (fold_left (fun s z => wrap (s + wrap (z * z))) zs 0%Z)
  | Float64 xs => nansum (map square xs)
  end.

(** [np.sqrt((data ** 2).sum())] *)
Definition col_norms (data : list column) : list float64 :=
  map (fun c => sqrt (sum_squares c)) data.

Definition matrix : Type := list (list float64).

Definition broadcast (op : float64 -> float64 -> float64)
    (data : matrix) (v : list float64) : matrix :=
  zip_with (fun col d => map (fun x => op x d) col) data v.

(** [frame.sum(axis=1)] over an index of [m] rows. *)
Definition row_sums (m : nat) (data : matrix) : list float64 :=
  map (fun i => nansum (map (fun col => nth i col nan) data)) (seq 0 m).

(** The loop of lines 74-80. *)
Fixpoint ideal_points (weighted_data : matrix) (impacts : list string)
    : list float64 * list float64 :=
  match weighted_data, impacts with
  | col :: cols, i :: impacts' =>
      let (best, worst) := ideal_points cols impacts' in
      if String.eqb i "+" then (nanmax col :: best, nanmin col :: worst)
      else (nanmin col :: best, nanmax col :: worst)
  | _, _ => ([], [])
  end.

(** [np.sqrt(((weighted_data - ideal) ** 2).sum(axis=1))] *)
Definition distances (m : nat) (weighted_data : matrix) (ideal : list float64)
    : list float64 :=
  map sqrt (row_sums m (map (map square) (broadcast sub weighted_data ideal))).

(** Lines 65 and 68. *)
Definition weighted (data : list column) (weights : list float64) : matrix :=
  broadcast mul (broadcast div (map values data) (col_norms data)) weights.

(** Lines 86 and 87. *)
Definition dist_best (m : nat) (data : list column) (weights : list float64)
    (impacts : list string) : list float64 :=
  distances m (weighted data weights)
    (fst (ideal_points (weighted data weights) impacts)).

Definition dist_worst (m : nat) (data : list column) (weights : list float64)
    (impacts : list string) : list float64 :=
  distances m (weighted data weights)
    (snd (ideal_points (weighted data weights) impacts)).

(** Lines 65-89, for a frame of [m] rows. *)
Definition topsis_score (m : nat) (data : list column) (weights : list float64)
    (impacts : list string) : list float64 :=
  let weighted_data := weighted data weights in
  let (ideal_best, ideal_worst) := ideal_points weighted_data impacts in
  let dist_best := distances m weighted_data ideal_best in
  let dist_worst := distances m weighted_data ideal_worst in
  zip_with div dist_worst (zip_with add dist_best dist_worst).

(** The values of a series without repetition. *)
Fixpoint distinct (xs : list float64) : list float64 :=
  match xs with
  | [] => []
  | x :: xs' => if existsb (eqb x) xs' then distinct xs' else x :: distinct xs'
  end.

(** [rank(ascending=False, method="dense")]: one more than the number
    of distinct values above; the rank of [NaN] is [NaN]. *)
Definition rank_dense_desc (xs : list float64) : list (option Z) :=
  map (fun x =>
         if isnan x then None
         else Some (1 + Z.of_nat (length (distinct (List.filter (ltb x) xs))))%Z) xs.

(** Lines 65-92: the two columns the run adds to the frame. *)
Definition topsis_rank (m : nat) (data : list column) (weights : list float64)
    (impacts : list string) : result (list float64 * list Z) :=
  let score := topsis_score m data weights impacts in
  rank ← astype_int (rank_dense_desc score);
  mret (score, rank).

(** *** The formula of the specification in binary64

    Section 4.1 read with every operation rounded, entry by entry for
    [m] alternatives and [n] criteria, over given reductions [sum],
    [vmax] and [vmin] and given norms of the columns. *)

Section Formula.
Variable sum vmax vmin : list float64 -> float64.
Variables m n : nat.
Variable data : nat -> nat -> float64.
Variable norm : nat -> float64.
Variable weight : nat -> float64.
Variable benefit : nat -> bool.

Definition over (k : nat) (f : nat -> float64) : list float64 := map f (seq 0 k).

Definition V (i j : nat) : float64 := mul (div (data i j) (norm j)) (weight j).

Definition best (j : nat) : float64 :=
  if benefit j then vmax (over m (fun i => V i j)) else vmin (over m (fun i => V i j)).

Definition worst (j : nat) : float64 :=
  if benefit j then vmin (over m (fun i => V i j)) else vmax (over m (fun i => V i j)).

Definition S_plus (i : nat) : float64 :=
  sqrt (sum (over n (fun j => square (sub (V i j) (best j))))).

Definition S_minus (i : nat) : float64 :=
  sqrt (sum (over n (fun j => square (sub (V i j) (worst j))))).

Definition closeness (i : nat) : float64 :=
  div (S_minus i) (add (S_plus i) (S_minus i)).
End Formula.

(** The plain reductions of the formula: a [NaN] entry makes the result
    [NaN]. *)
Definition fsum (xs : list float64) : float64 := fold_left add xs zero.

Definition fmax (xs : list float64) : float64 :=
  match xs with
  | [] => nan
  | x :: xs' => if existsb isnan xs then nan else fold_left max2 xs' x
  end.

Definition fmin (xs : list float64) : float64 :=
  match xs with
  | [] => nan
  | x :: xs' => if existsb isnan xs then nan else fold_left min2 xs' x
  end.

(** The entries of an input: the values of the table as numbers. *)
Definition entry (data : list column) (i j : nat) : float64 :=
  nth i (values (nth j data (Float64 []))) nan.

Definition weight_of (weights : list float64) (j : nat) : float64 :=
  nth j weights nan.

Definition is_benefit (impacts : list string) (j : nat) : bool :=
  String.eqb (nth j impacts EmptyString) "+".

(** The norm of the formula: [sqrt(sum over i of data[i][j]^2)]. *)
Definition formula_norm (m : nat) (data : list column) (j : nat) : float64 :=
  sqrt (fsum (over m (fun i => square (entry data i j)))).

(** The formula as written: no integer wraps, and the reductions are
    the plain ones. *)
Definition formula_score (m : nat) (data : list column) (weights : list float64)
    (impacts : list string) : list float64 :=
  map (closeness fsum fmax fmin m (length data) (entry data) (formula_norm m data)
         (weight_of weights) (is_benefit impacts))
      (seq 0 m).

(** The formula with the norms of the program and the reductions that
    leave [NaN] out. *)
Definition skipna_score (m : nat) (data : list column) (weights : list float64)
    (impacts : list string) : list float64 :=
  map (closeness nansum nanmax nanmin m (length data) (entry data)
         (fun j => nth j (col_norms data) nan)
         (weight_of weights) (is_benefit impacts))
      (seq 0 m).

(** A column whose sum of squares is the one of the formula.  For an
    integer column this says that no square and no sum wraps in
    [int64] or is rounded in binary64. *)
Definition exact_squares (c : column) : Prop :=
  match c with
  | Int64 zs => sum_squares c = fsum (map (fun z => square (of_int z)) zs)
  | Float64 _ => True
  end.

(** The frame with entry [f i j] in row [i] of column [j]. *)
Definition tabulate (n m : nat) (f : nat -> nat -> float64) : matrix :=
  map (fun j => map (fun i => f i j) (seq 0 m)) (seq 0 n).

(** *** Example tables: the criteria columns *)

(** Header [Name,P1,P2], rows [A,4000000000,1] and [B,1,2]. *)
Definition large_table : list column :=
  [Int64 [4000000000; 1]; Int64 [1; 2]]%Z.

(** Rows [A,0,0] and [B,0,1]: the criteria of [zero_column]. *)
Definition zero_table : list column := [Int64 [0; 0]; Int64 [0; 1]]%Z.

(** Rows [A,1,3], [B,5,7] and [C,6,2]. *)
Definition close_table : list column := [Int64 [1; 5; 6]; Int64 [3; 7; 2]]%Z.

(** Rows [A,1,0] and [B,0,1]: the criteria of [three_columns]. *)
Definition unit_table : list column := [Int64 [1; 0]; Int64 [0; 1]]%Z.

(** *** Powers of two *)

(** The float [2 ^ k], for [k] between -1022 and 1023. *)
Definition two_power (k : Z) : float64 :=
  S754_finite false 4503599627370496 (k - 52).

(** [x * 2 ^ k] where no rounding takes place: the mantissa is kept
    and the exponent moves. *)
Definition shift (k : Z) (x : float64) : float64 :=
  match x with
  | S754_finite s m e => S754_finite s m (e + k)
  | _ => x
  end.

(** A zero, or a finite float [m * 2 ^ e] whose exponent leaves room
    for two multiplications by [2 ^ k] or by [2 ^ -k] and for a
    square: [2|k| - 500 <= e <= 900 - 2|k|], which for a mantissa of 53
    bits means a magnitude from [2 ^ (2|k| - 448)] to below
    [2 ^ (953 - 2|k|)]. *)
Definition room (k : Z) (x : float64) : bool :=
  match x with
  | S754_zero _ => true
  | S754_finite _ _ e => (2 * Z.abs k - 500 <=? e)%Z && (e <=? 900 - 2 * Z.abs k)%Z
  | _ => false
  end.

(** A result that stays finite when its exponent moves by [j]. *)
Definition fits (j : Z) (x : float64) : bool :=
  match x with
  | S754_zero _ => true
  | S754_finite _ _ e => (e + j <=? 971)%Z
  | _ => false
  end.

(** A zero or a float with a full mantissa of 53 bits. *)
Definition normal (x : float64) : bool :=
  match x with
  | S754_zero _ => true
  | S754_finite _ m _ => Pos.eqb (digits2_pos m) 53
  | _ => false
  end.

(** The values the accumulator of a sum takes, the total last. *)
Fixpoint partial_sums (acc : float64) (xs : list float64) : list float64 :=
  match xs with
  | [] => [acc]
  | x :: xs' => acc :: partial_sums (add acc x) xs'
  end.

Definition roomy_sum (k : Z) (xs : list float64) : bool :=
  forallb (room k) (map skipna xs)
  && forallb (room k) (partial_sums zero (map skipna xs)).

(** Every value met while the distances to [ideal] are computed has
    room: the differences, their squares, the sums of every row as they
    build up, and the roots. *)
Definition roomy_distances (k : Z) (m : nat) (weighted_data : matrix)
    (ideal : list float64) : bool :=
  let d := broadcast sub weighted_data ideal in
  forallb (forallb (room k)) d
  && forallb (forallb (room k)) (map (map square) d)
  && forallb (fun i => roomy_sum k (map (fun col => nth i col nan) (map (map square) d)))
       (seq 0 m)
  && forallb (room k) (distances m weighted_data ideal).

(** No step of the run from line 68 on overflows, underflows or yields
    [NaN], with room for the factor [2 ^ k]: the weights are normal and
    every value met has room. *)
Definition roomy_run (k : Z) (m : nat) (data : list column)
    (weights : list float64) (impacts : list string) : bool :=
  let norm_data := broadcast div (map values data) (col_norms data) in
  let weighted_data := broadcast mul norm_data weights in
  let (ideal_best, ideal_worst) := ideal_points weighted_data impacts in
  forallb (fun w => normal w && room k w) weights
  && forallb (forallb (room k)) norm_data
  && forallb (forallb (room k)) weighted_data
  && forallb (room k) ideal_best
  && forallb (room k) ideal_worst
  && roomy_distances k m weighted_data ideal_best
  && roomy_distances k m weighted_data ideal_worst
  && forallb (room k)
       (zip_with add (distances m weighted_data ideal_best)
          (distances m weighted_data ideal_worst)).

End Binary64.

(** * Properties *)

(** ** Validation *)

Lemma existsb_map_inner {A B : Type} (f : A -> B) (p : B -> bool) (l : list A) :
  existsb p (map f l) = existsb (fun a => p (f a)) l.
Proof. induction l as [|a l IH]; simpl; [reflexivity|]. by rewrite IH. Qed.

Lemma existsb_pointwise {A : Type} (p q : A -> bool) (l : list A) :
  (forall a, p a = q a) -> existsb p l = existsb q l.
Proof. intros H. induction l as [|a l IH]; simpl; [reflexivity|]. by rewrite H, IH. Qed.

Lemma mapM_None_existsb {A B : Type} (f : A -> option B) (l : list A) :
  mapM f l = None <->
  existsb (fun a => match f a with Some _ => false | None => true end) l = true.
Proof.
  induction l as [|a l IH]; simpl; [split; discriminate|].
  destruct (f a) as [b|]; simpl; [|split; reflexivity || done].
  destruct (mapM f l) as [bs|]; simpl.
  - split; [discriminate|]. intros H. apply IH in H. discriminate.
  - split; [|reflexivity]. intros _. by apply IH.
Qed.

Lemma mapM_Some_Forall2 {A B : Type} (f : A -> option B) (l : list A) (k : list B) :
  mapM f l = Some k <-> Forall2 (fun a b => f a = Some b) l k.
Proof.
  revert k. induction l as [|a l IH]; intros k; simpl.
  - split; [intros [= <-]; constructor | inversion 1; reflexivity].
  - destruct (f a) as [b|] eqn:Hfa; simpl.
    + destruct (mapM f l) as [bs|]; simpl.
      * split.
        -- intros [= <-]. constructor; [assumption|]. by apply IH.
        -- inversion 1 as [|? b' ? k' Hb Hk]; subst.
           apply IH in Hk. by simplify_eq.
      * split; [discriminate|].
        inversion 1 as [|? b' ? k' Hb Hk]; subst. apply IH in Hk. discriminate.
    + split; [discriminate|]. inversion 1; subst. congruence.
Qed.

Lemma data_length (df : dataframe) :
  length (map (fun c : string * list cell => map to_numeric (snd c)) (tl df))
  = length (columns df) - 1.
Proof.
  unfold columns. rewrite !length_map. destruct df; simpl; lia.
Qed.

Lemma isnull_any (df : dataframe) :
  existsb (existsb isnan) (map (fun c : string * list cell => map to_numeric (snd c)) (tl df))
  = non_numeric_cell df.
Proof.
  unfold non_numeric_cell. rewrite existsb_map_inner.
  apply existsb_pointwise. intros c. apply existsb_map_inner.
Qed.

(** The program's checks are the specification's six conditions, tried
    in the same order. *)
Lemma topsis_validate_first_failure (df : dataframe) (ws ims : string) :
  match first_failure raised_messages df ws ims with
  | Some m => topsis_validate df ws ims = Raise (Exception m)
  | None => exists w,
      mapM float_of_string (tokens ws) = Some w /\
      topsis_validate df ws ims =
        Ok (map (fun c => map to_numeric (snd c)) (tl df), w, tokens ims)
  end.
Proof.
  unfold first_failure, checks, raised_messages, topsis_validate, first_applicable.
  unfold too_few_columns, columns. rewrite length_map.
  destruct (length df <? 3) eqn:H1; simpl; [reflexivity|].
  rewrite isnull_any.
  destruct (non_numeric_cell df) eqn:H2; simpl; [reflexivity|].
  unfold count_mismatch.
  destruct (negb (length (tokens ws) =? length (tokens ims))) eqn:H3; simpl;
    [reflexivity|].
  unfold criteria_mismatch. rewrite data_length.
  destruct (negb (length (tokens ws) =? length (columns df) - 1)) eqn:H4; simpl;
    [reflexivity|].
  unfold non_numeric_weight.
  destruct (mapM float_of_string (tokens ws)) as [w|] eqn:H5; simpl.
  - destruct (existsb _ (tokens ws)) eqn:H5'.
    { apply mapM_None_existsb in H5'. congruence. }
    unfold bad_impact.
    rewrite (existsb_pointwise (fun i => negb (is_impact i))
               (fun t => negb (String.eqb t "+") && negb (String.eqb t "-")))
      by (intros t; unfold is_impact; apply negb_orb).
    destruct (existsb _ (tokens ims)) eqn:H6; simpl; [reflexivity|].
    exists w. split; reflexivity.
  - destruct (existsb _ (tokens ws)) eqn:H5'; [reflexivity|].
    apply mapM_None_existsb in H5. congruence.
Qed.

Lemma astype_int_cases (ranks : list (option Z)) :
  (exists rs, astype_int ranks = Ok rs) \/ astype_int ranks = Raise IntCastingNaNError.
Proof.
  unfold astype_int. destruct (mapM _ ranks); [left; eauto | right; reflexivity].
Qed.

Lemma topsis_rank_cases (df : dataframe) data weights impacts :
  (exists out, topsis_rank df data weights impacts = Ok out) \/
  topsis_rank df data weights impacts = Raise IntCastingNaNError.
Proof.
  unfold topsis_rank.
  destruct (astype_int_cases
              (rank_dense_desc (topsis_score (nrows df) data weights impacts)))
    as [[rs ->]| ->]; simpl; [left; eauto | right; reflexivity].
Qed.

(** C1, as stated, fails: on a table of two columns the program's
    message is not the documented one, which ends with a period. *)
Lemma documented_messages_not_raised :
  ~ (forall m,
       first_failure documented_messages two_columns "1,1" "+,+" = Some m ->
       topsis_frame two_columns "1,1" "+,+" = Raise (Exception m)).
Proof.
  intros H. specialize (H _ eq_refl). discriminate H.
Qed.

(** C1 (amended): for every table, weights string and impacts string,
    the six validations are tried in the documented order and the run
    fails with the message of the first one that applies, where the
    first message is "Input file must contain 3 or more columns" without
    a final period; when none applies no validation message is raised. *)
Theorem validation_order (df : dataframe) (ws ims : string) :
  match first_failure raised_messages df ws ims with
  | Some m => topsis_frame df ws ims = Raise (Exception m)
  | None => forall m, topsis_frame df ws ims <> Raise (Exception m)
  end.
Proof.
  pose proof (topsis_validate_first_failure df ws ims) as H.
  unfold topsis_frame.
  destruct (first_failure raised_messages df ws ims) as [m|].
  - rewrite H. reflexivity.
  - destruct H as (w & _ & ->). simpl. intros m.
    destruct (topsis_rank_cases df
                (map (fun c => map to_numeric (snd c)) (tl df)) w (tokens ims))
      as [[out ->]| ->]; discriminate.
Qed.

(** ** No table on a validation failure *)

Lemma topsis_calculate_raise (fs : gmap string dataframe)
    (inp ws ims outp : string) (df : dataframe) (e : exn) :
  fs !! inp = Some df ->
  topsis_frame df ws ims = Raise e ->
  topsis_calculate fs inp ws ims outp = (fs, Raise e).
Proof. intros Hin Hf. unfold topsis_calculate. by rewrite Hin, Hf. Qed.

Lemma topsis_frame_first_failure (df : dataframe) (ws ims m : string) :
  first_failure raised_messages df ws ims = Some m ->
  topsis_frame df ws ims = Raise (Exception m).
Proof.
  intros H. pose proof (topsis_validate_first_failure df ws ims) as Hv.
  rewrite H in Hv. unfold topsis_frame. by rewrite Hv.
Qed.

(** C8: when one of the six validations fails, the run ends with that
    failure and the file system is the one it started from: no table is
    produced or written. *)
Theorem validation_failure_writes_nothing (fs : gmap string dataframe)
    (inp ws ims outp : string) (df : dataframe) (m : string) :
  fs !! inp = Some df ->
  first_failure raised_messages df ws ims = Some m ->
  topsis_calculate fs inp ws ims outp = (fs, Raise (Exception m)).
Proof.
  intros Hin H. eapply topsis_calculate_raise; [exact Hin|].
  by apply topsis_frame_first_failure.
Qed.

Lemma validation_failure_writes_nothing_witness :
  topsis_calculate {[ "in.csv"%string := two_columns ]}
    "in.csv" "1,1" "+,+" "Result.csv"
  = ({[ "in.csv"%string := two_columns ]}, Raise (Exception msg_columns)).
Proof.
  apply (validation_failure_writes_nothing _ _ _ _ _ two_columns).
  - apply lookup_singleton_eq.
  - reflexivity.
Defined.

(** ** The weights that pass validation *)

(** C9, as stated, fails: the weights "-1,0" pass the six validations. *)
Lemma nonpositive_weights_accepted :
  ~ (forall data w imp,
       topsis_validate three_columns "-1,0" "+,-" = Ok (data, w, imp) ->
       Forall positive_real w).
Proof.
  intros H. specialize (H _ [Fin (-1); Fin 0] _ eq_refl).
  apply Forall_inv in H. destruct H as (r & [= <-] & Hr). lra.
Qed.

(** C9 (amended): on every run that passes the six validations there is
    one weight per criterion column and each is the value [float] gives
    for its token with the surrounding whitespace removed; its sign is
    not checked. *)
Theorem validated_weights (df : dataframe) (ws ims : string)
    (data : matrix) (w : list float) (imp : list string) :
  topsis_validate df ws ims = Ok (data, w, imp) ->
  length w = length (columns df) - 1 /\
  Forall2 (fun t x => float_of_string t = Some x)
    (map strip (str_split "," ws)) w.
Proof.
  intros H. pose proof (topsis_validate_first_failure df ws ims) as Hv.
  destruct (first_failure raised_messages df ws ims) as [m|] eqn:Hff;
    [congruence|].
  destruct Hv as (w' & Hw & Hv). rewrite Hv in H. simplify_eq.
  apply mapM_Some_Forall2 in Hw. split; [|exact Hw].
  apply Forall2_length in Hw. rewrite <- Hw.
  unfold first_failure, checks in Hff. simpl in Hff.
  repeat match type of Hff with
         | (if ?b then _ else _) = _ => destruct b eqn:?; [discriminate|]
         end.
  unfold criteria_mismatch in *.
  match goal with
  | Hc : negb (_ =? _) = false |- _ =>
      apply negb_false_iff, Nat.eqb_eq in Hc; exact Hc
  end.
Qed.

Lemma validated_weights_witness :
  length [Fin (-1); Fin 0] = length (columns three_columns) - 1 /\
  Forall2 (fun t x => float_of_string t = Some x)
    (map strip (str_split "," "-1,0")) [Fin (-1); Fin 0].
Proof.
  apply (validated_weights three_columns "-1,0" "+,-"
           [[Fin 1; Fin 0]; [Fin 0; Fin 1]] _ ["+"; "-"]%string).
  reflexivity.
Defined.

(** ** Whitespace around tokens *)

Lemma whitespace_cons (c : ascii) (s : string) :
  whitespace (String c s) <-> isspace c = true /\ whitespace s.
Proof. unfold whitespace. simpl. apply Forall_cons_iff. Qed.

Lemma lstrip_whitespace_app (a s : string) :
  whitespace a -> lstrip (a ++ s) = lstrip s.
Proof.
  induction a as [|c a IH]; intros Ha; simpl; [reflexivity|].
  apply whitespace_cons in Ha as [-> Ha]. by apply IH.
Qed.

Lemma lstrip_whitespace (b : string) : whitespace b -> lstrip b = EmptyString.
Proof.
  induction b as [|c b IH]; intros Hb; simpl; [reflexivity|].
  apply whitespace_cons in Hb as [-> Hb]. by apply IH.
Qed.

Lemma rstrip_whitespace (b : string) : whitespace b -> rstrip b = EmptyString.
Proof.
  induction b as [|c b IH]; intros Hb; simpl; [reflexivity|].
  apply whitespace_cons in Hb as [-> Hb]. by rewrite IH.
Qed.

Lemma rstrip_app_whitespace (s b : string) :
  whitespace b -> rstrip (s ++ b) = rstrip s.
Proof.
  intros Hb. induction s as [|c s IH]; simpl.
  - by apply rstrip_whitespace.
  - by rewrite IH.
Qed.

Lemma strip_app_whitespace (t b : string) :
  whitespace b -> strip (t ++ b) = strip t.
Proof.
  intros Hb. unfold strip. induction t as [|c t IH]; simpl.
  - by rewrite lstrip_whitespace.
  - destruct (isspace c); [exact IH|].
    change (String c (t ++ b)) with (String c t ++ b)%string.
    by apply rstrip_app_whitespace.
Qed.



(** The run reads its two strings through their stripped tokens only. *)
Lemma topsis_validate_tokens (df : dataframe) (ws ws' ims ims' : string) :
  tokens ws' = tokens ws -> tokens ims' = tokens ims ->
  topsis_validate df ws' ims' = topsis_validate df ws ims.
Proof. intros Hw Hi. unfold topsis_validate. by rewrite Hw, Hi. Qed.



(** ** Arithmetic of floats *)

Lemma Rsign_spec (r : R) :
  (r < 0 /\ Rsign r = Lt)%R \/ (r = 0%R /\ Rsign r = Eq) \/ (0 < r /\ Rsign r = Gt)%R.
Proof.
  unfold Rsign. destruct (total_order_T r 0) as [[H|H]|H]; auto.
Qed.

Lemma Rsign_zero : Rsign 0 = Eq.
Proof. destruct (Rsign_spec 0) as [[? ?]|[[? ?]|[? ?]]]; auto; lra. Qed.

Lemma fsqrt_Fin (r : R) : (0 <= r)%R -> fsqrt (Fin r) = Fin (sqrt r).
Proof. intros H. simpl. destruct (Rlt_dec r 0); [lra|reflexivity]. Qed.

Lemma fdiv_Fin (a b : R) : b <> 0%R -> fdiv (Fin a) (Fin b) = Fin (a / b).
Proof. intros H. simpl. destruct (Req_dec_T b 0); [contradiction|reflexivity]. Qed.

Lemma fdiv_Fin_zero (a : R) : fdiv (Fin a) (Fin 0) = inf_of (Rsign a).
Proof. simpl. destruct (Req_dec_T 0 0); [reflexivity|contradiction]. Qed.

Lemma flt_Fin (a b : R) : flt (Fin a) (Fin b) = true <-> (a < b)%R.
Proof. simpl. destruct (Rlt_dec a b); split; auto; discriminate. Qed.

Lemma flt_Fin_true (a b : R) : (a < b)%R -> flt (Fin a) (Fin b) = true.
Proof. apply flt_Fin. Qed.

Lemma flt_Fin_false (a b : R) : (b <= a)%R -> flt (Fin a) (Fin b) = false.
Proof. intros H. simpl. destruct (Rlt_dec a b); [lra|reflexivity]. Qed.

Lemma flt_irrefl (x : float) : flt x x = false.
Proof. destruct x; simpl; try reflexivity. destruct (Rlt_dec r r); [lra|reflexivity]. Qed.

(** ** The order of floats *)

Lemma flt_trans (a b c : float) :
  flt a b = true -> flt b c = true -> flt a c = true.
Proof.
  destruct a as [| |a|], b as [| |b|], c as [| |c|]; simpl; try congruence.
  destruct (Rlt_dec a b), (Rlt_dec b c), (Rlt_dec a c); try congruence; lra.
Qed.

Lemma flt_asym (a b : float) : flt a b = true -> flt b a = false.
Proof.
  destruct a as [| |a|], b as [| |b|]; simpl; try congruence.
  destruct (Rlt_dec a b), (Rlt_dec b a); try congruence; lra.
Qed.

Lemma flt_total (a b : float) :
  isnan a = false -> isnan b = false ->
  flt a b = true \/ a = b \/ flt b a = true.
Proof.
  destruct a as [| |a|], b as [| |b|]; simpl; try congruence; auto.
  intros _ _. destruct (Rlt_dec a b), (Rlt_dec b a); auto.
  right; left. f_equal. lra.
Qed.

Lemma flt_notnan (a b : float) :
  flt a b = true -> isnan a = false /\ isnan b = false.
Proof. destruct a, b; simpl; try congruence; auto. Qed.

(** ** Dense ranking *)

Lemma insert_desc_In (x : float) (l : list float) (z : float) :
  In z (insert_desc x l) <-> z = x \/ In z l.
Proof.
  induction l as [|y l IH]; simpl; [intuition|].
  destruct (flt y x); simpl; [intuition|].
  destruct (float_eq_dec x y) as [->|Hne]; simpl; [intuition|].
  rewrite IH. intuition.
Qed.

Lemma insert_desc_descending (x : float) (l : list float) :
  isnan x = false -> Forall (fun y => isnan y = false) l ->
  descending l -> descending (insert_desc x l).
Proof.
  intros Hx Hl Hs. induction Hs as [|y l Hs IH Hy]; simpl.
  - repeat constructor.
  - apply Forall_cons_iff in Hl as [Hny Hl].
    destruct (flt y x) eqn:Hyx.
    + constructor; [by constructor|].
      constructor; [exact Hyx|].
      eapply List.Forall_impl; [|exact Hy]. simpl. intros z Hz.
      by eapply flt_trans.
    + destruct (float_eq_dec x y) as [->|Hne]; [by constructor|].
      constructor; [by apply IH|].
      apply List.Forall_forall. intros z Hz. apply insert_desc_In in Hz as [->|Hz].
      * destruct (flt_total x y Hx Hny) as [H|[H|H]]; congruence.
      * rewrite List.Forall_forall in Hy. by apply Hy.
Qed.

Lemma insert_desc_notnan (x : float) (l : list float) :
  isnan x = false -> Forall (fun y => isnan y = false) l ->
  Forall (fun y => isnan y = false) (insert_desc x l).
Proof.
  intros Hx Hl. apply List.Forall_forall. intros z Hz.
  apply insert_desc_In in Hz as [->|Hz]; [exact Hx|].
  rewrite List.Forall_forall in Hl. by apply Hl.
Qed.

Lemma distinct_desc_spec (xs : list float) :
  descending (distinct_desc xs) /\
  Forall (fun y => isnan y = false) (distinct_desc xs) /\
  (forall z, In z (distinct_desc xs) <-> In z xs /\ isnan z = false).
Proof.
  induction xs as [|x xs (Hs & Hn & Hin)]; simpl.
  - split; [constructor|]. split; [constructor|]. intuition.
  - destruct (isnan x) eqn:Hx.
    + split; [exact Hs|]. split; [exact Hn|]. intros z. rewrite Hin.
      split; [intuition|]. intros [[->|H] Hz]; [congruence|auto].
    + split; [by apply insert_desc_descending|].
      split; [by apply insert_desc_notnan|].
      intros z. rewrite insert_desc_In, Hin.
      split.
      * intros [->|[H Hz]]; auto.
      * intros [[->|H] Hz]; auto.
Qed.

Lemma descending_NoDup (l : list float) : descending l -> NoDup l.
Proof.
  induction 1 as [|y l Hs IH Hy]; constructor; [|exact IH].
  intros Hin. apply list_elem_of_In in Hin.
  rewrite List.Forall_forall in Hy. apply Hy in Hin.
  by rewrite flt_irrefl in Hin.
Qed.

Lemma position_bounds (x : float) (l : list float) :
  In x l -> (1 <= position x l <= Z.of_nat (length l))%Z.
Proof.
  induction l as [|y l IH]; simpl; [intros []|].
  intros Hin. destruct (float_eq_dec x y) as [->|Hne]; [lia|].
  destruct Hin as [->|Hin]; [congruence|]. specialize (IH Hin). lia.
Qed.

Lemma position_nth_error (x : float) (l : list float) :
  In x l -> nth_error l (Z.to_nat (position x l - 1)) = Some x.
Proof.
  induction l as [|y l IH]; simpl; [intros []|].
  intros Hin. destruct (float_eq_dec x y) as [->|Hne]; [reflexivity|].
  destruct Hin as [->|Hin]; [congruence|].
  pose proof (position_bounds x l Hin).
  replace (Z.to_nat (1 + position x l - 1)) with (S (Z.to_nat (position x l - 1)))
    by lia.
  simpl. by apply IH.
Qed.

Lemma nth_error_position (l : list float) (k : nat) (x : float) :
  NoDup l -> nth_error l k = Some x -> position x l = Z.of_nat (S k).
Proof.
  intros Hnd. revert k. induction Hnd as [|y l Hy Hnd IH]; intros k.
  - by destruct k.
  - destruct k as [|k]; simpl.
    + intros [= ->]. destruct (float_eq_dec x x); [reflexivity|congruence].
    + intros Hk. destruct (float_eq_dec x y) as [->|Hne].
      * exfalso. apply Hy. apply list_elem_of_In. eapply nth_error_In. exact Hk.
      * rewrite (IH _ Hk). lia.
Qed.

(** In a descending list the greater value comes first. *)
Lemma position_order (a b : float) (l : list float) :
  descending l -> In a l -> In b l -> flt b a = true ->
  (position a l < position b l)%Z.
Proof.
  induction 1 as [|y l Hs IH Hy]; simpl; [intros []|].
  intros Ha Hb Hba. rewrite List.Forall_forall in Hy.
  destruct (float_eq_dec a y) as [->|Hay].
  - destruct (float_eq_dec b y) as [->|Hby].
    + by rewrite flt_irrefl in Hba.
    + destruct Hb as [->|Hb]; [congruence|].
      pose proof (position_bounds b l Hb). lia.
  - destruct Ha as [->|Ha]; [congruence|].
    destruct (float_eq_dec b y) as [->|Hby].
    + apply Hy in Ha. apply flt_asym in Ha. congruence.
    + destruct Hb as [->|Hb]; [congruence|].
      specialize (IH Ha Hb Hba). lia.
Qed.

Lemma position_head (a : float) (l : list float) :
  descending l -> In a l -> (forall s, In s l -> flt a s = false) ->
  position a l = 1%Z.
Proof.
  intros Hs Ha Hmax. destruct l as [|y l]; [destruct Ha|]. simpl.
  destruct (float_eq_dec a y) as [->|Hay]; [reflexivity|].
  destruct Ha as [->|Ha]; [congruence|].
  inversion Hs as [|? ? _ Hy]; subst. rewrite List.Forall_forall in Hy.
  apply Hy in Ha. rewrite Hmax in Ha by (by left). discriminate.
Qed.

(** The ranks that can be cast to integers. *)
Lemma astype_int_rank (xs : list float) (rs : list Z) :
  astype_int (rank_dense_desc xs) = Ok rs <->
  Forall (fun x => isnan x = false) xs /\
  rs = map (fun x => position x (distinct_desc xs)) xs.
Proof.
  unfold astype_int, rank_dense_desc.
  generalize (distinct_desc xs). intros ds.
  destruct (mapM _ _) as [rs'|] eqn:Hm.
  - apply mapM_Some_Forall2 in Hm.
    assert (Forall (fun x => isnan x = false) xs /\
            rs' = map (fun x => position x ds) xs) as [Hn ->].
    { revert rs' Hm. induction xs as [|x xs IH]; intros rs' Hm; simpl in *.
      - inversion Hm. split; [constructor|reflexivity].
      - inversion Hm as [|o r os rs'' Ho Hos]; subst.
        destruct (IH _ Hos) as [Hn ->].
        destruct (isnan x) eqn:Hx; [discriminate|].
        injection Ho as <-. split; [by constructor|reflexivity]. }
    split; [intros [= <-]; auto | intros [_ ->]; reflexivity].
  - split; [discriminate|]. intros [Hn _]. exfalso.
    assert (is_Some (mapM (fun r : option Z => r)
              (map (fun x => if isnan x then None else Some (position x ds)) xs))) as [? ?];
      [|congruence].
    clear Hm. induction Hn as [|x xs Hx Hn [rs' IH]]; simpl; [eauto|].
    rewrite Hx. simpl. rewrite IH. simpl. eauto.
Qed.

(** ** A worked example *)

Lemma Fin_eq (a b : R) : a = b -> Fin a = Fin b.
Proof. by intros ->. Qed.

Lemma Fin_sqrt_eq (e v : R) : (0 <= v)%R -> (e = v * v)%R -> Fin (sqrt e) = Fin v.
Proof. intros Hv ->. by rewrite sqrt_square. Qed.

(** Closes an equation between explicit lists of finite values. *)
Ltac fin_list :=
  repeat (apply (f_equal2 cons); [|try reflexivity]);
  try reflexivity;
  first [ apply Fin_eq; lra | apply Fin_sqrt_eq; lra | apply Fin_eq; field; lra ].

Lemma example_scores :
  topsis_score 2 example_data [Fin 1; Fin 1] ["+"; "-"]%string = [Fin 1; Fin 0].
Proof.
  unfold topsis_score, example_data.
  assert (Hn : col_norms [[Fin 1; Fin 0]; [Fin 0; Fin 1]] = [Fin 1; Fin 1]).
  { unfold col_norms, nansum. cbn -[fsqrt].
    rewrite !fsqrt_Fin by lra. fin_list. }
  rewrite Hn.
  assert (Hd : broadcast fdiv [[Fin 1; Fin 0]; [Fin 0; Fin 1]] [Fin 1; Fin 1]
               = [[Fin 1; Fin 0]; [Fin 0; Fin 1]]).
  { unfold broadcast. cbn -[fdiv]. rewrite !fdiv_Fin by lra.
    apply (f_equal2 cons); [|apply (f_equal2 cons); [|reflexivity]]; fin_list. }
  rewrite Hd.
  assert (Hw : broadcast fmul [[Fin 1; Fin 0]; [Fin 0; Fin 1]] [Fin 1; Fin 1]
               = [[Fin 1; Fin 0]; [Fin 0; Fin 1]]).
  { unfold broadcast. cbn.
    apply (f_equal2 cons); [|apply (f_equal2 cons); [|reflexivity]]; fin_list. }
  rewrite Hw.
  assert (Hi : ideal_points [[Fin 1; Fin 0]; [Fin 0; Fin 1]] ["+"; "-"]%string
               = ([Fin 1; Fin 0], [Fin 0; Fin 1])).
  { cbn -[flt]. unfold nanmax, nanmin. cbn -[flt].
    rewrite (flt_Fin_false 1 0) by lra. rewrite (flt_Fin_true 0 1) by lra.
    reflexivity. }
  rewrite Hi.
  assert (Hb : distances 2 [[Fin 1; Fin 0]; [Fin 0; Fin 1]] [Fin 1; Fin 0]
               = [Fin 0; Fin (sqrt 2)]).
  { unfold distances, row_sums, broadcast, nansum. cbn -[fsqrt].
    rewrite !fsqrt_Fin by lra.
    apply (f_equal2 cons); [apply Fin_sqrt_eq; lra|].
    apply (f_equal2 cons); [|reflexivity]. apply Fin_eq. f_equal. lra. }
  assert (Hwo : distances 2 [[Fin 1; Fin 0]; [Fin 0; Fin 1]] [Fin 0; Fin 1]
               = [Fin (sqrt 2); Fin 0]).
  { unfold distances, row_sums, broadcast, nansum. cbn -[fsqrt].
    rewrite !fsqrt_Fin by lra.
    apply (f_equal2 cons); [apply Fin_eq; f_equal; lra|].
    apply (f_equal2 cons); [|reflexivity]. apply Fin_sqrt_eq; lra. }
  rewrite Hb, Hwo. cbn -[fdiv].
  pose proof Rlt_sqrt2_0 as H2.
  rewrite !fdiv_Fin by lra.
  apply (f_equal2 cons); [|apply (f_equal2 cons); [|reflexivity]];
    apply Fin_eq; field; lra.
Qed.

(** ** Columns of a frame *)

Lemma get_col_set_col (df : dataframe) (n : string) (c : list cell) :
  get_col (set_col df n c) n = Some c.
Proof.
  induction df as [|[n' c'] df IH]; simpl.
  - by rewrite String.eqb_refl.
  - destruct (String.eqb n' n) eqn:E; simpl.
    + by rewrite String.eqb_refl.
    + by rewrite E.
Qed.

Lemma get_col_set_col_ne (df : dataframe) (n n' : string) (c : list cell) :
  n <> n' -> get_col (set_col df n c) n' = get_col df n'.
Proof.
  intros Hne. induction df as [|[n0 c0] df IH]; simpl.
  - apply String.eqb_neq in Hne. by rewrite Hne.
  - destruct (String.eqb n0 n) eqn:E; simpl.
    + apply String.eqb_eq in E as ->.
      apply String.eqb_neq in Hne. by rewrite Hne.
    + by rewrite IH.
Qed.

Lemma set_col_fresh (df : dataframe) (n : string) (c : list cell) :
  ~ In n (columns df) -> set_col df n c = df ++ [(n, c)].
Proof.
  induction df as [|[n' c'] df IH]; simpl; [reflexivity|].
  intros Hn. destruct (String.eqb n' n) eqn:E.
  - apply String.eqb_eq in E. tauto.
  - rewrite IH by tauto. reflexivity.
Qed.

(** ** The table a run produces *)

Lemma topsis_validate_ok (df : dataframe) (ws ims : string)
    (data : matrix) (w : list float) (imp : list string) :
  topsis_validate df ws ims = Ok (data, w, imp) ->
  data = map (fun c => map to_numeric (snd c)) (tl df) /\
  imp = tokens ims /\
  mapM float_of_string (tokens ws) = Some w /\
  first_failure raised_messages df ws ims = None.
Proof.
  intros H. pose proof (topsis_validate_first_failure df ws ims) as Hv.
  destruct (first_failure raised_messages df ws ims) as [m|]; [congruence|].
  destruct Hv as (w' & Hw & Hv). rewrite Hv in H. by simplify_eq.
Qed.

Lemma topsis_rank_ok (df : dataframe) (data : matrix) (w : list float)
    (imp : list string) (out : dataframe) :
  topsis_rank df data w imp = Ok out <->
  Forall (fun x => isnan x = false) (topsis_score (nrows df) data w imp) /\
  out = output_frame df (topsis_score (nrows df) data w imp).
Proof.
  unfold topsis_rank, output_frame, ranks_of.
  set (score := topsis_score (nrows df) data w imp).
  destruct (astype_int (rank_dense_desc score)) as [rs|e] eqn:Hr; simpl.
  - apply astype_int_rank in Hr as [Hn ->].
    split; [intros [= <-]; auto | intros [_ ->]; reflexivity].
  - split; [discriminate|]. intros [Hn _]. exfalso.
    assert (astype_int (rank_dense_desc score) = Ok (ranks_of score)) as Hok
      by (by apply astype_int_rank).
    congruence.
Qed.

Lemma topsis_frame_ok (df : dataframe) (ws ims : string) (out : dataframe) :
  topsis_frame df ws ims = Ok out <->
  exists data w,
    topsis_validate df ws ims = Ok (data, w, tokens ims) /\
    Forall (fun x => isnan x = false)
      (topsis_score (nrows df) data w (tokens ims)) /\
    out = output_frame df (topsis_score (nrows df) data w (tokens ims)).
Proof.
  unfold topsis_frame. split.
  - destruct (topsis_validate df ws ims) as [[[data w] imp]|e] eqn:Hv; simpl;
      [|discriminate].
    intros H. apply topsis_rank_ok in H.
    destruct (topsis_validate_ok _ _ _ _ _ _ Hv) as (_ & -> & _).
    exists data, w. by split.
  - intros (data & w & -> & Hn & ->). simpl. by apply topsis_rank_ok.
Qed.

Lemma example_ranks : ranks_of [Fin 1; Fin 0] = [1%Z; 2%Z].
Proof.
  unfold ranks_of. cbn -[flt float_eq_dec].
  rewrite (flt_Fin_true 0 1) by lra. cbn -[float_eq_dec].
  destruct (float_eq_dec (Fin 1) (Fin 1)); [|congruence].
  destruct (float_eq_dec (Fin 0) (Fin 1)) as [E|_]; [injection E; lra|].
  destruct (float_eq_dec (Fin 0) (Fin 0)); [|congruence].
  reflexivity.
Qed.

(** A run on a table of two alternatives [(1, 0)] and [(0, 1)], a
    benefit and a cost criterion: scores 1 and 0, ranks 1 and 2. *)
Lemma example_frame (df : dataframe) :
  (3 <= length df)%nat -> nrows df = 2%nat ->
  map (fun c => map to_numeric (snd c)) (tl df) = example_data ->
  topsis_frame df "1,1" "+,-" = Ok (output_frame df [Fin 1; Fin 0]).
Proof.
  intros Hlen Hrows Hdata. apply topsis_frame_ok.
  exists example_data, [Fin 1; Fin 1].
  change (tokens "+,-") with ["+"; "-"]%string.
  rewrite Hrows, example_scores. split; [|split; [|reflexivity]].
  - unfold topsis_validate. rewrite Hdata.
    apply Nat.ltb_ge in Hlen. rewrite Hlen. reflexivity.
  - by repeat constructor.
Qed.

Lemma example_run :
  topsis_frame three_columns "1,1" "+,-"
  = Ok (three_columns ++
          [ ("Topsis Score", [CFloat (Fin 1); CFloat (Fin 0)]);
            ("Rank", [CInt 1; CInt 2]) ]%string).
Proof.
  rewrite example_frame by (reflexivity || (simpl; lia)).
  unfold output_frame. by rewrite example_ranks.
Qed.

(** ** The range of the scores *)









Lemma distances_length (m : nat) (wd : matrix) (ideal : list float) :
  length (distances m wd ideal) = m.
Proof. unfold distances, row_sums. by rewrite !length_map, length_seq. Qed.

Lemma zip_with_same_length {A B C : Type} (f : A -> B -> C) (a : list A) (b : list B) :
  length a = length b -> length (zip_with f a b) = length a.
Proof.
  revert b. induction a as [|x a IH]; intros [|y b]; simpl; try discriminate;
    [reflexivity|]. intros [= H]. by rewrite IH.
Qed.

(** One score per row. *)
Lemma topsis_score_length (m : nat) (data : matrix) (w : list float)
    (imp : list string) :
  length (topsis_score m data w imp) = m.
Proof.
  unfold topsis_score. destruct (ideal_points _ imp) as [ib iw].
  rewrite !zip_with_same_length; rewrite ?zip_with_same_length;
    rewrite ?distances_length; reflexivity.
Qed.

Lemma get_col_output_score (df : dataframe) (score : list float) :
  get_col (output_frame df score) "Topsis Score" = Some (map CFloat score).
Proof.
  unfold output_frame. rewrite get_col_set_col_ne by discriminate.
  apply get_col_set_col.
Qed.

Lemma get_col_output_rank (df : dataframe) (score : list float) :
  get_col (output_frame df score) "Rank" = Some (map CInt (ranks_of score)).
Proof. apply get_col_set_col. Qed.



(** ** The Rank column *)

Lemma ranks_of_nth (score : list float) (i : nat) (s : float) :
  nth_error score i = Some s ->
  nth_error (ranks_of score) i = Some (position s (distinct_desc score)).
Proof. intros H. unfold ranks_of. by rewrite nth_error_map, H. Qed.

Lemma Forall2_position (ds l : list float) :
  Forall (fun x => In x ds) l ->
  Forall2 (position_in ds) l (map (fun x => position x ds) l).
Proof.
  induction 1 as [|x l Hx Hl IH]; simpl; constructor; [|exact IH].
  split; [apply position_bounds, Hx | by apply position_nth_error].
Qed.

(** C3: in every table the program produces, the Rank column is the
    dense ranking of the Topsis Score column in descending order: with
    [ds] the distinct scores in descending order, the rank of a row is
    the 1-based position of its score in [ds]; so equal scores have
    equal ranks, a greater score has a smaller rank, a greatest score
    has rank 1, and the ranks are exactly the integers from 1 to the
    number of distinct scores. *)
Theorem rank_is_dense (df : dataframe) (ws ims : string) (out : dataframe) :
  topsis_frame df ws ims = Ok out ->
  exists score rank ds,
    get_col out "Topsis Score" = Some (map CFloat score) /\
    get_col out "Rank" = Some (map CInt rank) /\
    distinct_descending score ds /\
    Forall2 (position_in ds) score rank /\
    (forall i j si sj ri rj,
       nth_error score i = Some si -> nth_error rank i = Some ri ->
       nth_error score j = Some sj -> nth_error rank j = Some rj ->
       (si = sj -> ri = rj) /\ (flt sj si = true -> (ri < rj)%Z)) /\
    (forall i si ri,
       nth_error score i = Some si -> nth_error rank i = Some ri ->
       (forall s, In s score -> flt si s = false) -> ri = 1%Z) /\
    (forall r, In r rank <-> (1 <= r <= Z.of_nat (length ds))%Z).
Proof.
  intros H. apply topsis_frame_ok in H as (data & w & _ & Hn & ->).
  set (score := topsis_score (nrows df) data w (tokens ims)) in *.
  destruct (distinct_desc_spec score) as (Hs & _ & Hin).
  assert (Hmem : forall x, In x (distinct_desc score) <-> In x score).
  { intros x. rewrite Hin. split; [tauto|]. intros Hx. split; [exact Hx|].
    rewrite List.Forall_forall in Hn. by apply Hn. }
  assert (Hrank : forall i s r,
             nth_error score i = Some s -> nth_error (ranks_of score) i = Some r ->
             r = position s (distinct_desc score) /\ In s (distinct_desc score)).
  { intros i s r Hi Hr. rewrite (ranks_of_nth _ _ _ Hi) in Hr.
    injection Hr as <-. split; [reflexivity|].
    apply Hmem. by eapply nth_error_In. }
  exists score, (ranks_of score), (distinct_desc score).
  split; [apply get_col_output_score|].
  split; [apply get_col_output_rank|].
  split; [by split|].
  split; [|split; [|split]].
  - apply Forall2_position, List.Forall_forall. intros x Hx. by apply Hmem.
  - intros i j si sj ri rj Hi Hri Hj Hrj.
    destruct (Hrank _ _ _ Hi Hri) as [-> Hsi].
    destruct (Hrank _ _ _ Hj Hrj) as [-> Hsj].
    split; [by intros ->|]. intros Hlt. by apply position_order.
  - intros i si ri Hi Hri Hmax.
    destruct (Hrank _ _ _ Hi Hri) as [-> Hsi].
    apply position_head; [exact Hs|exact Hsi|].
    intros s Hs'. apply Hmax. by apply Hmem.
  - intros r. split.
    + intros Hr. apply In_nth_error in Hr as [i Hi].
      assert (is_Some (nth_error score i)) as [s Hsi].
      { apply not_eq_None_Some. intros Hnone.
        apply nth_error_None in Hnone.
        assert (nth_error (ranks_of score) i = None) as E.
        { apply nth_error_None. unfold ranks_of. by rewrite length_map. }
        congruence. }
      destruct (Hrank _ _ _ Hsi Hi) as [-> Hs'].
      by apply position_bounds.
    + intros Hr.
      destruct (nth_error (distinct_desc score) (Z.to_nat (r - 1))) as [d|] eqn:Hd.
      2:{ apply nth_error_None in Hd. lia. }
      assert (In d score) as Hds by (apply Hmem; by eapply nth_error_In).
      apply In_nth_error in Hds as [i Hi].
      pose proof (ranks_of_nth _ _ _ Hi) as Hri.
      rewrite (nth_error_position _ _ _ (descending_NoDup _ Hs) Hd) in Hri.
      replace (Z.of_nat (S (Z.to_nat (r - 1)))) with r in Hri by lia.
      by eapply nth_error_In.
Qed.

Lemma rank_is_dense_witness :
  exists score rank ds,
    get_col (three_columns ++
               [ ("Topsis Score", [CFloat (Fin 1); CFloat (Fin 0)]);
                 ("Rank", [CInt 1; CInt 2]) ]%string) "Topsis Score"
    = Some (map CFloat score) /\
    get_col (three_columns ++
               [ ("Topsis Score", [CFloat (Fin 1); CFloat (Fin 0)]);
                 ("Rank", [CInt 1; CInt 2]) ]%string) "Rank"
    = Some (map CInt rank) /\
    distinct_descending score ds /\
    Forall2 (position_in ds) score rank /\
    (forall i j si sj ri rj,
       nth_error score i = Some si -> nth_error rank i = Some ri ->
       nth_error score j = Some sj -> nth_error rank j = Some rj ->
       (si = sj -> ri = rj) /\ (flt sj si = true -> (ri < rj)%Z)) /\
    (forall i si ri,
       nth_error score i = Some si -> nth_error rank i = Some ri ->
       (forall s, In s score -> flt si s = false) -> ri = 1%Z) /\
    (forall r, In r rank <-> (1 <= r <= Z.of_nat (length ds))%Z).
Proof.
  apply (rank_is_dense three_columns "1,1" "+,-"). exact example_run.
Defined.

(** ** The columns of the output *)

(** C4, as stated, fails: on a table that has a column labelled [Rank]
    the run gives a table of four columns, not the input followed by two
    new columns. *)
Lemma rank_column_overwritten :
  ~ (forall out,
       topsis_frame rank_table "1,1" "+,-" = Ok out ->
       exists score rank,
         out = rank_table ++ [("Topsis Score", score); ("Rank", rank)]%string).
Proof.
  intros H.
  assert (Hrun : topsis_frame rank_table "1,1" "+,-"
                 = Ok (output_frame rank_table [Fin 1; Fin 0])).
  { apply example_frame; reflexivity || (simpl; lia). }
  destruct (H _ Hrun) as (score & rank & E).
  apply (f_equal (@length _)) in E. discriminate E.
Qed.

(** C4 (amended): when the input has no column labelled [Topsis Score]
    or [Rank], the table produced is the input, every column unchanged
    and in the same order, followed by exactly two new columns
    [Topsis Score] and [Rank] with one entry per row of the input. *)
Theorem output_appends_two_columns (df : dataframe) (ws ims : string)
    (out : dataframe) :
  topsis_frame df ws ims = Ok out ->
  ~ In "Topsis Score"%string (columns df) ->
  ~ In "Rank"%string (columns df) ->
  exists score rank,
    out = df ++ [ ("Topsis Score", map CFloat score);
                  ("Rank", map CInt rank) ]%string /\
    length score = nrows df /\ length rank = nrows df.
Proof.
  intros H Hs Hr. apply topsis_frame_ok in H as (data & w & _ & _ & ->).
  set (score := topsis_score (nrows df) data w (tokens ims)).
  exists score, (ranks_of score). split; [|split].
  - unfold output_frame. rewrite (set_col_fresh df) by exact Hs.
    rewrite set_col_fresh.
    + by rewrite <- app_assoc.
    + unfold columns. rewrite map_app, in_app_iff. simpl.
      intros [?|[?|[]]]; [tauto|discriminate].
  - apply topsis_score_length.
  - unfold ranks_of. rewrite length_map. apply topsis_score_length.
Qed.

Lemma output_appends_two_columns_witness :
  exists score rank,
    three_columns ++
      [ ("Topsis Score", [CFloat (Fin 1); CFloat (Fin 0)]);
        ("Rank", [CInt 1; CInt 2]) ]%string
    = three_columns ++ [ ("Topsis Score", map CFloat score);
                         ("Rank", map CInt rank) ]%string /\
    length score = nrows three_columns /\ length rank = nrows three_columns.
Proof.
  apply (output_appends_two_columns three_columns "1,1" "+,-").
  - exact example_run.
  - simpl. intros [H|[H|[H|[]]]]; discriminate H.
  - simpl. intros [H|[H|[H|[]]]]; discriminate H.
Defined.

(** ** Division by zero *)

Lemma fdiv_zero_zero (a b : R) : a = 0%R -> b = 0%R -> fdiv (Fin a) (Fin b) = NaN.
Proof. intros -> ->. rewrite fdiv_Fin_zero. by rewrite Rsign_zero. Qed.

Lemma same_rows_scores :
  topsis_score 2 [[Fin 1; Fin 1]; [Fin 1; Fin 1]] [Fin 1; Fin 1] ["+"; "-"]%string
  = [NaN; NaN].
Proof.
  unfold topsis_score.
  assert (Hn : col_norms [[Fin 1; Fin 1]; [Fin 1; Fin 1]]
               = [Fin (sqrt 2); Fin (sqrt 2)]).
  { unfold col_norms, nansum. cbn -[fsqrt]. rewrite !fsqrt_Fin by lra.
    replace (0 + 1 * 1 + 1 * 1)%R with 2%R by lra. reflexivity. }
  rewrite Hn. pose proof Rlt_sqrt2_0 as H2.
  unfold broadcast. cbn -[fdiv flt fsqrt]. rewrite !fdiv_Fin by lra.
  cbn -[flt fsqrt]. unfold nanmax, nanmin. cbn -[flt fsqrt].
  rewrite !flt_irrefl.
  unfold distances, row_sums, broadcast, nansum. cbn -[fsqrt fdiv].
  rewrite !fsqrt_Fin by nra.
  set (v := (1 / sqrt 2 * 1)%R).
  replace (0 + (v + - v) * (v + - v) + (v + - v) * (v + - v))%R with 0%R by ring.
  rewrite sqrt_0. cbn -[fdiv].
  rewrite !fdiv_zero_zero by lra. reflexivity.
Qed.

Lemma zero_column_norm_data :
  broadcast fdiv zero_data (col_norms zero_data) = [[NaN; NaN]; [Fin 0; Fin 1]].
Proof.
  assert (Hn : col_norms zero_data = [Fin 0; Fin 1]).
  { unfold col_norms, nansum, zero_data. cbn -[fsqrt].
    rewrite !fsqrt_Fin by lra.
    apply (f_equal2 cons); [|apply (f_equal2 cons); [|reflexivity]];
      apply Fin_sqrt_eq; lra. }
  rewrite Hn. unfold broadcast, zero_data. cbn -[fdiv].
  rewrite !fdiv_zero_zero by reflexivity. rewrite !fdiv_Fin by lra.
  do 3 f_equal; [|f_equal]; apply Fin_eq; lra.
Qed.

(** C5 does not hold of the program: division by zero is not handled.
    A column of zeros makes the normalized data [NaN]; two alternatives
    with the same values have the score [0 / 0], which is [NaN], and the
    conversion of the ranks to integers then fails, so that no table is
    produced. *)
Theorem division_by_zero_unhandled :
  broadcast fdiv zero_data (col_norms zero_data) = [[NaN; NaN]; [Fin 0; Fin 1]] /\
  topsis_validate same_rows "1,1" "+,-"
    = Ok ([[Fin 1; Fin 1]; [Fin 1; Fin 1]], [Fin 1; Fin 1], ["+"; "-"]%string) /\
  topsis_score (nrows same_rows) [[Fin 1; Fin 1]; [Fin 1; Fin 1]] [Fin 1; Fin 1]
    ["+"; "-"]%string = [NaN; NaN] /\
  topsis_frame same_rows "1,1" "+,-" = Raise IntCastingNaNError.
Proof.
  split; [exact zero_column_norm_data|].
  split; [reflexivity|].
  split; [exact same_rows_scores|].
  unfold topsis_frame.
  change (topsis_validate same_rows "1,1" "+,-")
    with (Ok ([[Fin 1; Fin 1]; [Fin 1; Fin 1]], [Fin 1; Fin 1], ["+"; "-"]%string)
          : result (matrix * list float * list string)).
  simpl. unfold topsis_rank.
  change (nrows same_rows) with 2%nat. rewrite same_rows_scores. reflexivity.
Qed.

(** ** What a run writes *)

(** A run changes no file other than its output file. *)
Theorem only_output_file_changes (fs : gmap string dataframe)
    (inp ws ims outp p : string) :
  p <> outp ->
  fst (topsis_calculate fs inp ws ims outp) !! p = fs !! p.
Proof.
  intros Hp. unfold topsis_calculate.
  destruct (fs !! inp) as [df|]; [|reflexivity].
  destruct (topsis_frame df ws ims); simpl; [|reflexivity].
  by rewrite lookup_insert_ne.
Qed.

Lemma only_output_file_changes_witness :
  fst (topsis_calculate {[ "in.csv"%string := three_columns ]}
         "in.csv" "1,1" "+,-" "Result.csv") !! "in.csv"%string
  = ({[ "in.csv"%string := three_columns ]} : gmap string dataframe) !! "in.csv"%string.
Proof. apply only_output_file_changes. discriminate. Defined.

(** A run that raises, whatever the exception (missing input file, a
    failed validation, a [NaN] rank), leaves the file system as it was. *)
Theorem any_failure_changes_nothing (fs : gmap string dataframe)
    (inp ws ims outp : string) (e : exn) :
  snd (topsis_calculate fs inp ws ims outp) = Raise e ->
  fst (topsis_calculate fs inp ws ims outp) = fs.
Proof.
  unfold topsis_calculate.
  destruct (fs !! inp) as [df|]; [|reflexivity].
  destruct (topsis_frame df ws ims); simpl; [discriminate|reflexivity].
Qed.

Lemma any_failure_changes_nothing_witness :
  fst (topsis_calculate ∅ "in.csv" "1,1" "+,-" "Result.csv") = ∅.
Proof.
  apply (any_failure_changes_nothing ∅ "in.csv" "1,1" "+,-" "Result.csv"
           FileNotFoundError).
  reflexivity.
Defined.

(** A run that returns has read a table from its input file and its
    output file holds the table computed from it. *)
Theorem success_writes_the_table (fs : gmap string dataframe)
    (inp ws ims outp : string) :
  snd (topsis_calculate fs inp ws ims outp) = Ok tt ->
  exists df out,
    fs !! inp = Some df /\
    topsis_frame df ws ims = Ok out /\
    fst (topsis_calculate fs inp ws ims outp) !! outp = Some out.
Proof.
  unfold topsis_calculate.
  destruct (fs !! inp) as [df|]; [|discriminate].
  destruct (topsis_frame df ws ims) as [out|e] eqn:Hf; simpl; [|discriminate].
  intros _. exists df, out. split; [reflexivity|]. split; [exact Hf|].
  apply lookup_insert_eq.
Qed.

Lemma success_writes_the_table_witness :
  exists df out,
    ({[ "in.csv"%string := three_columns ]} : gmap string dataframe) !! "in.csv"%string
    = Some df /\
    topsis_frame df "1,1" "+,-" = Ok out /\
    fst (topsis_calculate {[ "in.csv"%string := three_columns ]}
           "in.csv" "1,1" "+,-" "Result.csv") !! "Result.csv"%string = Some out.
Proof.
  apply success_writes_the_table.
  unfold topsis_calculate. rewrite lookup_singleton_eq, example_run. reflexivity.
Defined.

(** ** Scores and distances *)

Lemma topsis_score_distances (m : nat) (data : matrix) (w : list float)
    (imp : list string) :
  topsis_score m data w imp
  = zip_with fdiv (dist_worst m data w imp)
      (zip_with fadd (dist_best m data w imp) (dist_worst m data w imp)).
Proof.
  unfold topsis_score, dist_best, dist_worst, weighted.
  by destruct (ideal_points _ imp).
Qed.



Lemma dist_worst_length (m : nat) data w imp : length (dist_worst m data w imp) = m.
Proof. apply distances_length. Qed.








(** ** Identical alternatives *)

Lemma nanmax2_same (v : float) : nanmax2 v v = v.
Proof. destruct v; simpl; try reflexivity. by destruct (Rlt_dec r r). Qed.

Lemma nanmin2_same (v : float) : nanmin2 v v = v.
Proof. destruct v; simpl; try reflexivity. by destruct (Rlt_dec r r). Qed.

Lemma fold_repeat_same (f : float -> float -> float) (v : float) (k : nat) :
  f v v = v -> fold_left f (repeat v k) v = v.
Proof. intros Hf. induction k as [|k IH]; simpl; [reflexivity|]. by rewrite Hf. Qed.

Lemma nanmax_repeat (v : float) (m : nat) : (1 <= m)%nat -> nanmax (repeat v m) = v.
Proof.
  destruct m as [|k]; [lia|]. intros _. unfold nanmax. simpl.
  apply fold_repeat_same, nanmax2_same.
Qed.

Lemma nanmin_repeat (v : float) (m : nat) : (1 <= m)%nat -> nanmin (repeat v m) = v.
Proof.
  destruct m as [|k]; [lia|]. intros _. unfold nanmin. simpl.
  apply fold_repeat_same, nanmin2_same.
Qed.

Lemma map_repeat {A B : Type} (f : A -> B) (x : A) (m : nat) :
  map f (repeat x m) = repeat (f x) m.
Proof. induction m as [|m IH]; simpl; [reflexivity|]. by rewrite IH. Qed.

Lemma broadcast_constant (op : float -> float -> float) (m : nat)
    (data : matrix) (v : list float) :
  Forall (constant_column m) data ->
  Forall (constant_column m) (broadcast op data v).
Proof.
  intros Hdata. revert v. unfold broadcast.
  induction Hdata as [|col data [x ->] Hdata IH]; intros [|d v]; simpl;
    constructor; [|by apply IH].
  exists (op x d). apply (map_repeat (fun y => op y d)).
Qed.

Lemma fsub_same (v : float) : zero_or_nan (fsub v v).
Proof.
  destruct v as [| |a|]; simpl; try (by left). right. apply Fin_eq. ring.
Qed.

Lemma constant_diffs (m : nat) (wd : matrix) (imp : list string) :
  (1 <= m)%nat -> Forall (constant_column m) wd ->
  Forall (Forall zero_or_nan) (broadcast fsub wd (fst (ideal_points wd imp))) /\
  Forall (Forall zero_or_nan) (broadcast fsub wd (snd (ideal_points wd imp))).
Proof.
  intros Hm Hwd. revert imp. unfold broadcast.
  induction Hwd as [|col wd [v ->] Hwd IH]; intros [|i imp]; simpl;
    try (split; constructor).
  destruct (IH imp) as [Hb Hw]. destruct (ideal_points wd imp) as [b w].
  rewrite nanmax_repeat, nanmin_repeat by exact Hm.
  assert (Forall zero_or_nan (map (fun x => fsub x v) (repeat v m))).
  { rewrite (map_repeat (fun y => fsub y v)). apply List.Forall_forall. intros x Hx.
    apply repeat_spec in Hx as ->. apply fsub_same. }
  destruct (String.eqb i "+"); simpl in *; split; by constructor.
Qed.

Lemma nansum_zero (l : list float) :
  Forall zero_or_nan l -> nansum l = Fin 0.
Proof.
  unfold nansum. generalize (eq_refl (Fin 0)). generalize (Fin 0) at 1 3.
  induction l as [|x l IH]; intros acc Hacc Hl; simpl; [exact Hacc|].
  apply Forall_cons_iff in Hl as [[->| ->] Hl]; simpl; [by apply IH|].
  apply IH; [|exact Hl]. subst acc. simpl. apply Fin_eq. lra.
Qed.

Lemma distances_zero (m : nat) (M : matrix) :
  Forall (Forall zero_or_nan) M ->
  Forall (fun d => d = Fin 0) (map fsqrt (row_sums m (map (map fsquare) M))).
Proof.
  intros HM. unfold row_sums. rewrite map_map.
  apply List.Forall_forall. intros d Hd. apply in_map_iff in Hd as (i & <- & _).
  rewrite nansum_zero.
  - rewrite fsqrt_Fin by lra. by rewrite sqrt_0.
  - apply List.Forall_forall. intros x Hx.
    apply in_map_iff in Hx as (col & <- & Hcol).
    apply in_map_iff in Hcol as (col' & <- & Hcol').
    change NaN with (fsquare NaN). rewrite map_nth.
    rewrite List.Forall_forall in HM. specialize (HM col' Hcol').
    assert (zero_or_nan (nth i col' NaN)) as [->| ->].
    { destruct (nth_in_or_default i col' NaN) as [Hin| ->]; [|by left].
      rewrite List.Forall_forall in HM. by apply HM. }
    + by left.
    + right. simpl. apply Fin_eq. lra.
Qed.

(** When all alternatives have the same values, every score is [0 / 0]. *)
Lemma identical_scores_nan (m : nat) (data : matrix) (w : list float)
    (imp : list string) :
  (1 <= m)%nat -> Forall (constant_column m) data ->
  Forall (fun s => s = NaN) (topsis_score m data w imp).
Proof.
  intros Hm Hdata.
  assert (Hwd : Forall (constant_column m) (weighted data w))
    by (unfold weighted; by do 2 apply broadcast_constant).
  destruct (constant_diffs m (weighted data w) imp Hm Hwd) as [Hb Hw].
  apply (distances_zero m) in Hb. apply (distances_zero m) in Hw.
  rewrite topsis_score_distances. unfold dist_best, dist_worst, distances.
  revert Hb Hw.
  generalize (map fsqrt (row_sums m (map (map fsquare)
                (broadcast fsub (weighted data w)
                   (fst (ideal_points (weighted data w) imp)))))).
  generalize (map fsqrt (row_sums m (map (map fsquare)
                (broadcast fsub (weighted data w)
                   (snd (ideal_points (weighted data w) imp)))))).
  intros dw db Hb. revert dw.
  induction Hb as [|b db -> Hb IH]; intros dw Hw.
  - destruct dw; constructor.
  - destruct Hw as [|a dw -> Hw]; simpl; constructor; [|by apply IH].
    apply fdiv_zero_zero; lra.
Qed.

(** A table of one or more alternatives that all have the same values
    passes the validations, but every score is [NaN] and the run ends
    with the error of the integer conversion; no table is produced. *)
Theorem identical_alternatives_fail (df : dataframe) (ws ims : string)
    (data : matrix) (w : list float) (imp : list string) :
  topsis_validate df ws ims = Ok (data, w, imp) ->
  (1 <= nrows df)%nat ->
  Forall (constant_column (nrows df)) data ->
  topsis_frame df ws ims = Raise IntCastingNaNError.
Proof.
  intros Hv Hm Hdata. unfold topsis_frame. rewrite Hv. simpl.
  destruct (topsis_rank_cases df data w imp) as [[out Hout]|H]; [|exact H].
  exfalso. apply topsis_rank_ok in Hout as [Hn _].
  pose proof (identical_scores_nan (nrows df) data w imp Hm Hdata) as Hnan.
  pose proof (topsis_score_length (nrows df) data w imp) as Hlen.
  destruct (topsis_score (nrows df) data w imp) as [|s l]; [simpl in Hlen; lia|].
  apply Forall_cons_iff in Hn as [Hs _]. apply Forall_cons_iff in Hnan as [-> _].
  discriminate.
Qed.

Lemma identical_alternatives_fail_witness :
  topsis_frame same_rows "1,1" "+,-" = Raise IntCastingNaNError.
Proof.
  apply (identical_alternatives_fail same_rows "1,1" "+,-"
           [[Fin 1; Fin 1]; [Fin 1; Fin 1]] [Fin 1; Fin 1] ["+"; "-"]%string).
  - reflexivity.
  - simpl. lia.
  - repeat constructor; by exists (Fin 1).
Defined.

(** ** Splitting at commas *)

Lemma str_split_nonempty (sep : ascii) (s : string) : str_split sep s <> [].
Proof.
  destruct s as [|c s]; simpl; [discriminate|].
  destruct (Ascii.eqb c sep); [discriminate|].
  destruct (str_split sep s); discriminate.
Qed.

(** A string has one token more than it has separators; in particular
    the empty string has one (empty) token. *)
Theorem tokens_count (s : string) :
  length (tokens s) = S (count_char "," s).
Proof.
  unfold tokens. rewrite length_map.
  induction s as [|c s IH]; simpl; [reflexivity|].
  destruct (Ascii.eqb c ","); simpl; [by rewrite IH|].
  pose proof (str_split_nonempty "," s).
  destruct (str_split "," s); [congruence|]. exact IH.
Qed.

Lemma str_join_cons (sep t : string) (l : list string) :
  l <> [] -> str_join sep (t :: l) = (t ++ sep ++ str_join sep l)%string.
Proof. by destruct l. Qed.

(** Joining the pieces of a split with the separator gives the string
    back. *)
Theorem join_split (sep : ascii) (s : string) :
  str_join (String sep EmptyString) (str_split sep s) = s.
Proof.
  induction s as [|c s IH]; [reflexivity|].
  pose proof (str_split_nonempty sep s) as Hne.
  cbn [str_split]. destruct (Ascii.eqb c sep) eqn:E.
  - apply Ascii.eqb_eq in E as ->.
    rewrite str_join_cons by exact Hne. by rewrite IH.
  - destruct (str_split sep s) as [|t l]; [congruence|].
    destruct l as [|t' l].
    + simpl in *. by rewrite IH.
    + rewrite str_join_cons by discriminate.
      rewrite str_join_cons in IH by discriminate.
      rewrite <- IH at 1. reflexivity.
Qed.

(** *** Stripping the whole string first *)

Lemma whitespace_no_comma (c : ascii) : isspace c = true -> Ascii.eqb c "," = false.
Proof.
  intros H. destruct (Ascii.eqb c ",") eqn:E; [|reflexivity].
  apply Ascii.eqb_eq in E as ->. discriminate H.
Qed.

Lemma str_app_nil_l (s : string) : (EmptyString ++ s)%string = s.
Proof. reflexivity. Qed.

Lemma str_app_cons (c : ascii) (a s : string) :
  (String c a ++ s)%string = String c (a ++ s).
Proof. reflexivity. Qed.

Lemma str_app_nil_r (s : string) : (s ++ EmptyString)%string = s.
Proof. induction s as [|c s IH]; [reflexivity|]. by rewrite str_app_cons, IH. Qed.

Lemma str_split_whitespace_app (a s : string) :
  whitespace a ->
  str_split "," (a ++ s)
  = match str_split "," s with
    | t :: ts => (a ++ t)%string :: ts
    | [] => []
    end.
Proof.
  induction a as [|c a IH]; intros Ha.
  - rewrite str_app_nil_l. by destruct (str_split "," s).
  - apply whitespace_cons in Ha as [Hc Ha].
    rewrite str_app_cons. cbn [str_split].
    rewrite (whitespace_no_comma c Hc), (IH Ha).
    pose proof (str_split_nonempty "," s).
    destruct (str_split "," s); [congruence|]. by rewrite str_app_cons.
Qed.

Lemma str_split_app_whitespace (s b : string) :
  whitespace b ->
  exists l t, str_split "," s = l ++ [t] /\
              str_split "," (s ++ b) = l ++ [(t ++ b)%string].
Proof.
  intros Hb. induction s as [|c s (l & t & Hs & Hsb)].
  - exists [], EmptyString. split; [reflexivity|].
    rewrite !str_app_nil_l. rewrite <- (str_app_nil_r b) at 1.
    rewrite str_split_whitespace_app by exact Hb. simpl.
    by rewrite str_app_nil_r.
  - rewrite str_app_cons. cbn [str_split]. rewrite Hs, Hsb.
    destruct (Ascii.eqb c ",").
    + exists (EmptyString :: l), t. by split.
    + destruct l as [|t0 l]; simpl.
      * exists [], (String c t). by split.
      * exists (String c t0 :: l), t. by split.
Qed.

Lemma lstrip_decompose (s : string) :
  exists a, whitespace a /\ s = (a ++ lstrip s)%string.
Proof.
  induction s as [|c s (a & Ha & Hs)]; cbn [lstrip].
  - exists EmptyString. split; [constructor|reflexivity].
  - destruct (isspace c) eqn:E.
    + exists (String c a). split; [by apply whitespace_cons|].
      rewrite str_app_cons. by rewrite <- Hs.
    + exists EmptyString. split; [constructor|reflexivity].
Qed.

Lemma rstrip_decompose (s : string) :
  exists b, whitespace b /\ s = (rstrip s ++ b)%string.
Proof.
  induction s as [|c s (b & Hb & Hs)]; cbn [rstrip].
  - exists EmptyString. split; [constructor|reflexivity].
  - destruct (rstrip s) as [|c' r] eqn:E.
    + rewrite str_app_nil_l in Hs. subst b. destruct (isspace c) eqn:Ec.
      * exists (String c s). split; [by apply whitespace_cons|reflexivity].
      * exists s. split; [exact Hb|reflexivity].
    + exists b. split; [exact Hb|]. rewrite str_app_cons. by rewrite <- Hs.
Qed.

Lemma strip_whitespace_app (a t : string) :
  whitespace a -> strip (a ++ t) = strip t.
Proof. intros Ha. unfold strip. by rewrite lstrip_whitespace_app. Qed.

Lemma tokens_whitespace_app (a s : string) :
  whitespace a -> tokens (a ++ s) = tokens s.
Proof.
  intros Ha. unfold tokens. rewrite str_split_whitespace_app by exact Ha.
  destruct (str_split "," s) as [|t ts]; simpl; [reflexivity|].
  by rewrite strip_whitespace_app.
Qed.

Lemma tokens_app_whitespace (s b : string) :
  whitespace b -> tokens (s ++ b) = tokens s.
Proof.
  intros Hb. unfold tokens.
  destruct (str_split_app_whitespace s b Hb) as (l & t & -> & ->).
  rewrite !map_app. simpl. by rewrite strip_app_whitespace.
Qed.

(** A string is its stripped form between two runs of whitespace. *)
Lemma strip_decompose (s : string) :
  exists a b, whitespace a /\ whitespace b /\ s = (a ++ strip s ++ b)%string.
Proof.
  destruct (lstrip_decompose s) as (a & Ha & Hs).
  destruct (rstrip_decompose (lstrip s)) as (b & Hb & Hl).
  exists a, b. split; [exact Ha|]. split; [exact Hb|].
  unfold strip. by rewrite <- Hl.
Qed.

(** Stripping a whole string before it is split changes none of its
    tokens: the [strip()] applied to the form fields in [submit] has no
    effect on the run. *)
Theorem tokens_strip (s : string) : tokens (strip s) = tokens s.
Proof.
  destruct (strip_decompose s) as (a & b & Ha & Hb & Hs).
  rewrite Hs at 2. rewrite tokens_whitespace_app by exact Ha.
  by rewrite tokens_app_whitespace.
Qed.

(** *** Empty tokens *)

Lemma float_of_string_empty : float_of_string EmptyString = None.
Proof. reflexivity. Qed.

(** A weights string with an empty token (the empty string, a trailing
    comma, two commas in a row, also with whitespace between them)
    never passes the validations. *)
Theorem empty_weight_token_rejected (df : dataframe) (ws ims : string)
    (r : matrix * list float * list string) :
  In EmptyString (tokens ws) ->
  topsis_validate df ws ims <> Ok r.
Proof.
  intros Hin Hv. destruct r as [[data w] imp].
  apply topsis_validate_ok in Hv as (_ & _ & Hw & _).
  apply mapM_Some_Forall2 in Hw.
  assert (exists x, float_of_string EmptyString = Some x) as [x Hx]; [|discriminate].
  revert Hin. induction Hw as [|t x ts xs Ht Hts IH]; simpl; [intros []|].
  intros [->|Hin]; eauto.
Qed.

Lemma empty_weight_token_rejected_witness :
  topsis_validate three_columns "1, ," "+,-,+"
  <> Ok (example_data, [Fin 1; Fin 1], ["+"; "-"]%string).
Proof.
  apply empty_weight_token_rejected. simpl. auto.
Defined.

(** ** Matching by derivatives *)

Lemma str_app_assoc (a b c : string) : ((a ++ b) ++ c)%string = (a ++ b ++ c)%string.
Proof.
  induction a as [|x a IH]; [reflexivity|]. by rewrite !str_app_cons, IH.
Qed.

Lemma str_app_eq_nil (a b : string) :
  (a ++ b)%string = EmptyString -> a = EmptyString /\ b = EmptyString.
Proof. destruct a; [by rewrite str_app_nil_l|discriminate]. Qed.

Lemma matches_nil_nullable (r : regex) (s : string) :
  matches r s -> s = EmptyString -> nullable r = true.
Proof.
  induction 1 as [|p c Hp|r1 r2 s1 s2 H1 IH1 H2 IH2|r1 r2 s H IH|r1 r2 s H IH
                 |r|r s1 s2 H1 IH1 H2 IH2]; intros E; simpl; try reflexivity.
  - discriminate.
  - apply str_app_eq_nil in E as [-> ->]. by rewrite IH1, IH2.
  - by rewrite IH.
  - rewrite IH by exact E. apply orb_true_r.
Qed.

Lemma nullable_matches (r : regex) : nullable r = true <-> matches r EmptyString.
Proof.
  split; [|intros H; by eapply matches_nil_nullable].
  induction r as [| |p|r1 IH1 r2 IH2|r1 IH1 r2 IH2|r IH]; simpl;
    try discriminate.
  - intros _. constructor.
  - intros [H1 H2]%andb_true_iff.
    change EmptyString with (EmptyString ++ EmptyString)%string.
    constructor; auto.
  - intros [H|H]%orb_true_iff; [apply MAltL|apply MAltR]; auto.
  - intros _. constructor.
Qed.

Lemma deriv_sound (r : regex) (c : ascii) (s : string) :
  matches (deriv c r) s -> matches r (String c s).
Proof.
  revert s. induction r as [| |p|r1 IH1 r2 IH2|r1 IH1 r2 IH2|r IH]; intros s; simpl.
  - inversion 1.
  - inversion 1.
  - destruct (p c) eqn:Hp; inversion 1; subst. by constructor.
  - assert (Hcat : forall s, matches (RCat (deriv c r1) r2) s ->
                             matches (RCat r1 r2) (String c s)).
    { intros s0 H. inversion H as [| |? ? s1 s2 H1 H2| | | |]; subst.
      rewrite <- str_app_cons. constructor; auto. }
    destruct (nullable r1) eqn:Hn; [|apply Hcat].
    inversion 1 as [| | |? ? ? H1|? ? ? H2| |]; subst; [by apply Hcat|].
    rewrite <- (str_app_nil_l (String c s)). constructor; [|by apply IH2].
    by apply nullable_matches.
  - inversion 1; subst; [apply MAltL|apply MAltR]; auto.
  - inversion 1 as [| |? ? s1 s2 H1 H2| | | |]; subst.
    rewrite <- str_app_cons. constructor; auto.
Qed.

Lemma deriv_complete (r : regex) (s0 : string) :
  matches r s0 -> forall c s, s0 = String c s -> matches (deriv c r) s.
Proof.
  induction 1 as [|p c0 Hp|r1 r2 s1 s2 H1 IH1 H2 IH2|r1 r2 s' H IH|r1 r2 s' H IH
                 |r|r s1 s2 H1 IH1 H2 IH2]; intros c s E; simpl.
  - discriminate.
  - injection E as -> <-. rewrite Hp. constructor.
  - destruct s1 as [|c1 s1].
    + rewrite str_app_nil_l in E.
      rewrite (matches_nil_nullable r1 _ H1 eq_refl). apply MAltR. by apply IH2.
    + rewrite str_app_cons in E. injection E as -> <-.
      assert (matches (RCat (deriv c r1) r2) (s1 ++ s2)) by (constructor; auto).
      destruct (nullable r1); [by apply MAltL|assumption].
  - apply MAltL. by apply IH.
  - apply MAltR. by apply IH.
  - discriminate.
  - destruct s1 as [|c1 s1].
    + rewrite str_app_nil_l in E. by apply (IH2 c s).
    + rewrite str_app_cons in E. injection E as -> <-.
      constructor; auto.
Qed.

Lemma deriv_matches (r : regex) (c : ascii) (s : string) :
  matches (deriv c r) s <-> matches r (String c s).
Proof.
  split; [apply deriv_sound|]. intros H. by eapply deriv_complete.
Qed.

(** The matcher decides the full match. *)
Lemma accepts_matches (r : regex) (s : string) :
  accepts r s = true <-> matches r s.
Proof.
  revert r. induction s as [|c s IH]; intros r; simpl.
  - apply nullable_matches.
  - rewrite IH. apply deriv_matches.
Qed.

(** ** [validate_email] *)

Lemma matches_cat (r1 r2 : regex) (s : string) :
  matches (RCat r1 r2) s <->
  exists s1 s2, s = (s1 ++ s2)%string /\ matches r1 s1 /\ matches r2 s2.
Proof.
  split.
  - inversion 1; subst; eauto.
  - intros (s1 & s2 & -> & H1 & H2). by constructor.
Qed.

Lemma matches_char (p : ascii -> bool) (s : string) :
  matches (RChar p) s <-> exists c, s = String c EmptyString /\ p c = true.
Proof.
  split.
  - inversion 1; subst; eauto.
  - intros (c & -> & Hc). by constructor.
Qed.

Lemma all_chars_nil (p : ascii -> bool) : all_chars p EmptyString.
Proof. constructor. Qed.

Lemma all_chars_cons (p : ascii -> bool) (c : ascii) (s : string) :
  all_chars p (String c s) <-> p c = true /\ all_chars p s.
Proof. unfold all_chars. simpl. apply Forall_cons_iff. Qed.

Lemma all_chars_app (p : ascii -> bool) (a b : string) :
  all_chars p (a ++ b) <-> all_chars p a /\ all_chars p b.
Proof.
  induction a as [|c a IH].
  - rewrite str_app_nil_l. split; [intros H; split; [constructor|exact H]|tauto].
  - rewrite str_app_cons, !all_chars_cons, IH. tauto.
Qed.

Lemma matches_star_chars (p : ascii -> bool) (s : string) :
  matches (RStar (RChar p)) s <-> all_chars p s.
Proof.
  split.
  - intros H. remember (RStar (RChar p)) as r eqn:Er.
    induction H as [|q c Hq|r1 r2 s1 s2 H1 IH1 H2 IH2|r1 r2 s H IH|r1 r2 s H IH
                   |r|r s1 s2 H1 IH1 H2 IH2]; try discriminate.
    + constructor.
    + injection Er as ->. apply all_chars_app. split; [|by apply IH2].
      apply matches_char in H1 as (c & -> & Hc).
      apply all_chars_cons. split; [exact Hc|constructor].
  - induction s as [|c s IH]; intros H; [constructor|].
    apply all_chars_cons in H as [Hc Hs].
    change (String c s) with (String c EmptyString ++ s)%string.
    constructor; [by constructor|by apply IH].
Qed.

Lemma matches_plus_chars (p : ascii -> bool) (s : string) :
  matches (RPlus (RChar p)) s <-> s <> EmptyString /\ all_chars p s.
Proof.
  unfold RPlus. rewrite matches_cat. split.
  - intros (s1 & s2 & -> & H1 & H2).
    apply matches_char in H1 as (c & -> & Hc). apply matches_star_chars in H2.
    rewrite str_app_cons, str_app_nil_l. split; [discriminate|].
    by apply all_chars_cons.
  - intros [Hne H]. destruct s as [|c s]; [congruence|].
    apply all_chars_cons in H as [Hc Hs].
    exists (String c EmptyString), s. split; [reflexivity|].
    split; [by constructor|by apply matches_star_chars].
Qed.

Lemma matches_two_or_more_chars (p : ascii -> bool) (s : string) :
  matches (RTwoOrMore (RChar p)) s <->
  (2 <= String.length s)%nat /\ all_chars p s.
Proof.
  unfold RTwoOrMore. rewrite matches_cat. split.
  - intros (s1 & s2 & -> & H1 & H2).
    apply matches_char in H1 as (c & -> & Hc).
    apply matches_plus_chars in H2 as [Hne H2].
    rewrite str_app_cons, str_app_nil_l. split.
    + destruct s2; [congruence|]. simpl. lia.
    + by apply all_chars_cons.
  - intros [Hlen H]. destruct s as [|c [|c' s]]; simpl in Hlen; try lia.
    apply all_chars_cons in H as [Hc Hs].
    exists (String c EmptyString), (String c' s). split; [reflexivity|].
    split; [by constructor|]. apply matches_plus_chars. split; [discriminate|exact Hs].
Qed.

Lemma matches_end_of_string (e : string) :
  matches end_of_string e <-> e = EmptyString \/ e = String newline EmptyString.
Proof.
  unfold end_of_string. split.
  - inversion 1 as [| | |? ? ? H1|? ? ? H2| |]; subst.
    + inversion H1. by left.
    + apply matches_char in H2 as (c & -> & Hc).
      apply Ascii.eqb_eq in Hc as <-. by right.
  - intros [->| ->]; [apply MAltL; constructor|apply MAltR].
    constructor. apply Ascii.eqb_refl.
Qed.

Lemma validate_email_parts (s : string) :
  validate_email s = true ->
  exists l d t e,
    s = (l ++ "@" ++ d ++ "." ++ t ++ e)%string /\
    l <> EmptyString /\ all_chars local_char l /\
    d <> EmptyString /\ all_chars domain_char d /\
    (2 <= String.length t)%nat /\ all_chars is_letter t /\
    (e = EmptyString \/ e = String newline EmptyString).
Proof.
  unfold validate_email, email_pattern. rewrite accepts_matches.
  rewrite matches_cat.
  intros (l & s1 & -> & Hl & H).
  apply matches_cat in H as (a & s2 & -> & Ha & H).
  apply matches_cat in H as (d & s3 & -> & Hd & H).
  apply matches_cat in H as (dot & s4 & -> & Hdot & H).
  apply matches_cat in H as (t & e & -> & Ht & He).
  apply matches_char in Ha as (c & -> & Hc). apply Ascii.eqb_eq in Hc as <-.
  apply matches_char in Hdot as (c & -> & Hc). apply Ascii.eqb_eq in Hc as <-.
  apply matches_plus_chars in Hl as [Hl1 Hl2].
  apply matches_plus_chars in Hd as [Hd1 Hd2].
  apply matches_two_or_more_chars in Ht as [Ht1 Ht2].
  apply matches_end_of_string in He.
  exists l, d, t, e. repeat split; assumption.
Qed.

Lemma validate_email_of_parts (l d t e : string) :
  l <> EmptyString -> all_chars local_char l ->
  d <> EmptyString -> all_chars domain_char d ->
  (2 <= String.length t)%nat -> all_chars is_letter t ->
  e = EmptyString \/ e = String newline EmptyString ->
  validate_email (l ++ "@" ++ d ++ "." ++ t ++ e) = true.
Proof.
  intros Hl1 Hl2 Hd1 Hd2 Ht1 Ht2 He.
  unfold validate_email, email_pattern. rewrite accepts_matches.
  apply matches_cat. exists l, ("@" ++ d ++ "." ++ t ++ e)%string.
  split; [reflexivity|]. split; [by apply matches_plus_chars|].
  apply matches_cat. exists "@"%string, (d ++ "." ++ t ++ e)%string.
  split; [reflexivity|]. split; [constructor; apply Ascii.eqb_refl|].
  apply matches_cat. exists d, ("." ++ t ++ e)%string.
  split; [reflexivity|]. split; [by apply matches_plus_chars|].
  apply matches_cat. exists "."%string, (t ++ e)%string.
  split; [reflexivity|]. split; [constructor; apply Ascii.eqb_refl|].
  apply matches_cat. exists t, e. split; [reflexivity|].
  split; [by apply matches_two_or_more_chars|by apply matches_end_of_string].
Qed.

(** [validate_email] accepts exactly the strings
    [local @ domain . tld], optionally followed by one newline, where
    [local] and [domain] are not empty and made of the characters of
    their classes, and [tld] is two or more letters. *)
Theorem validate_email_spec (s : string) :
  validate_email s = true <->
  exists l d t e,
    s = (l ++ "@" ++ d ++ "." ++ t ++ e)%string /\
    l <> EmptyString /\ all_chars local_char l /\
    d <> EmptyString /\ all_chars domain_char d /\
    (2 <= String.length t)%nat /\ all_chars is_letter t /\
    (e = EmptyString \/ e = String newline EmptyString).
Proof.
  split; [apply validate_email_parts|].
  intros (l & d & t & e & -> & Hl1 & Hl2 & Hd1 & Hd2 & Ht1 & Ht2 & He).
  by apply validate_email_of_parts.
Qed.

Lemma count_char_app (c : ascii) (a b : string) :
  count_char c (a ++ b) = (count_char c a + count_char c b)%nat.
Proof.
  induction a as [|x a IH]; [reflexivity|].
  rewrite str_app_cons. simpl. rewrite IH. lia.
Qed.

Lemma count_char_absent (p : ascii -> bool) (c : ascii) (s : string) :
  p c = false -> all_chars p s -> count_char c s = 0%nat.
Proof.
  intros Hc. induction s as [|x s IH]; intros H; [reflexivity|].
  apply all_chars_cons in H as [Hx Hs]. simpl. rewrite (IH Hs).
  destruct (Ascii.eqb x c) eqn:E; [|reflexivity].
  apply Ascii.eqb_eq in E as ->. congruence.
Qed.

(** An accepted address has exactly one [@]. *)
Theorem valid_email_one_at (s : string) :
  validate_email s = true -> count_char "@" s = 1%nat.
Proof.
  intros H. apply validate_email_parts in H
    as (l & d & t & e & -> & _ & Hl & _ & Hd & _ & Ht & He).
  rewrite !count_char_app.
  rewrite (count_char_absent local_char "@" l eq_refl Hl).
  rewrite (count_char_absent domain_char "@" d eq_refl Hd).
  rewrite (count_char_absent is_letter "@" t eq_refl Ht).
  destruct He as [->| ->]; reflexivity.
Qed.

Lemma valid_email_one_at_witness : count_char "@" "a@b.co" = 1%nat.
Proof. apply valid_email_one_at. reflexivity. Defined.

(** An accepted address with no newline is still accepted when a
    newline is added at its end: [$] also matches before a final
    newline. *)
Theorem valid_email_trailing_newline (s : string) :
  validate_email s = true ->
  count_char newline s = 0%nat ->
  validate_email (s ++ String newline EmptyString) = true.
Proof.
  intros H Hnl. apply validate_email_parts in H
    as (l & d & t & e & -> & Hl1 & Hl2 & Hd1 & Hd2 & Ht1 & Ht2 & He).
  destruct He as [->| ->].
  - rewrite (str_app_nil_r t), !str_app_assoc.
    apply validate_email_of_parts; auto.
  - rewrite !count_char_app in Hnl. simpl in Hnl. lia.
Qed.

Lemma valid_email_trailing_newline_witness :
  validate_email ("a@b.co" ++ String newline EmptyString) = true.
Proof. apply valid_email_trailing_newline; reflexivity. Defined.

(** ** The mail session *)

(** [send_email] makes no SMTP call at all, or one complete session:
    a connection to smtp.gmail.com on port 465 over SSL, or to
    smtp.office365.com on port 587 followed by STARTTLS, then the login
    with the configured credentials and one message, from the sender to
    the receiver, that carries the file read at the attachment path.
    A session needs both credentials to be set and not empty, and the
    attachment to exist. *)
Theorem send_email_session (env : gmap string string) (fs : gmap string dataframe)
    (receiver path : string) :
  fst (send_email env fs receiver path) = [] \/
  exists sender password data,
    env !! "EMAIL"%string = Some sender /\ sender <> EmptyString /\
    env !! "EMAIL_PASSWORD"%string = Some password /\ password <> EmptyString /\
    fs !! path = Some data /\
    let msg := {| msg_subject := "TOPSIS Result File";
                  msg_from := sender;
                  msg_to := receiver;
                  msg_content := "Your TOPSIS result file is attached.";
                  msg_attachment_name := basename path;
                  msg_attachment := data |} in
    (fst (send_email env fs receiver path)
       = [SMTP_SSL "smtp.gmail.com" 465 20; login sender password; send_message msg]
     /\ existsb (String.eqb (sender_domain sender)) office_domains = false) \/
    (fst (send_email env fs receiver path)
       = [SMTP "smtp.office365.com" 587 20; starttls; login sender password;
          send_message msg]
     /\ existsb (String.eqb (sender_domain sender)) office_domains = true).
Proof.
  unfold send_email.
  destruct (env !! "EMAIL"%string) as [sender|]; [|left; reflexivity].
  destruct (env !! "EMAIL_PASSWORD"%string) as [password|]; [|left; reflexivity].
  destruct (String.eqb sender "") eqn:Es; [left; reflexivity|].
  destruct (String.eqb password "") eqn:Ep; [left; reflexivity|].
  cbn [orb]. destruct (fs !! path) as [data|]; [|left; reflexivity].
  right. exists sender, password, data.
  apply String.eqb_neq in Es, Ep. repeat (split; [done|]).
  unfold smtp_settings. cbv zeta.
  destruct (existsb (String.eqb (sender_domain sender)) office_domains) eqn:Eo.
  - destruct (String.eqb (sender_domain sender) "gmail.com") eqn:Eg.
    + apply String.eqb_eq in Eg. rewrite Eg in Eo. discriminate Eo.
    + right. split; reflexivity.
  - left. split; [|reflexivity].
    by destruct (String.eqb (sender_domain sender) "gmail.com").
Qed.

Lemma py_lower_char_at (c : ascii) :
  Ascii.eqb (py_lower_char c) "@" = Ascii.eqb c "@".
Proof. destruct c as [[] [] [] [] [] [] [] []]; reflexivity. Qed.

Lemma py_lower_split (s : string) :
  str_split "@" (py_lower s) = map py_lower (str_split "@" s).
Proof.
  induction s as [|c s IH]; [reflexivity|]. cbn [py_lower str_split].
  rewrite py_lower_char_at, IH.
  destruct (Ascii.eqb c "@"); [reflexivity|].
  pose proof (str_split_nonempty "@" s).
  by destruct (str_split "@" s).
Qed.

Lemma last_map {A B : Type} (f : A -> B) (l : list A) (d : A) :
  List.last (map f l) (f d) = f (List.last l d).
Proof.
  induction l as [|x l IH]; [reflexivity|].
  destruct l as [|y l]; [reflexivity|]. exact IH.
Qed.

Lemma sender_domain_lower (s : string) :
  sender_domain s = List.last (str_split "@" (py_lower s)) EmptyString.
Proof.
  unfold sender_domain. rewrite py_lower_split.
  change EmptyString with (py_lower EmptyString) at 2. by rewrite last_map.
Qed.

(** The server is chosen without regard to the case of the sender's
    address: two addresses that differ only in case get the same
    settings. *)
Theorem smtp_settings_ignore_case (s s' : string) :
  py_lower s = py_lower s' ->
  smtp_settings (sender_domain s) = smtp_settings (sender_domain s').
Proof. intros H. by rewrite !sender_domain_lower, H. Qed.

Lemma smtp_settings_ignore_case_witness :
  smtp_settings (sender_domain "Someone@Outlook.COM")
  = smtp_settings (sender_domain "someone@outlook.com").
Proof. apply smtp_settings_ignore_case. reflexivity. Defined.

(** ** The upload form *)

Lemma first_failure_tokens (msgs : list string) (df : dataframe)
    (ws ws' ims ims' : string) :
  tokens ws' = tokens ws -> tokens ims' = tokens ims ->
  first_failure msgs df ws' ims' = first_failure msgs df ws ims.
Proof.
  intros Hw Hi. unfold first_failure, checks, count_mismatch, criteria_mismatch,
    non_numeric_weight, bad_impact. by rewrite Hw, Hi.
Qed.

Lemma topsis_frame_tokens (df : dataframe) (ws ws' ims ims' : string) :
  tokens ws' = tokens ws -> tokens ims' = tokens ims ->
  topsis_frame df ws' ims' = topsis_frame df ws ims.
Proof.
  intros Hw Hi. unfold topsis_frame.
  by rewrite (topsis_validate_tokens df ws ws' ims ims').
Qed.

Lemma path_join_plain (a b : string) :
  count_char "/" b = 0%nat -> a <> EmptyString -> str_endswith a "/" = false ->
  path_join a b = (a ++ "/" ++ b)%string.
Proof.
  intros Hb Ha He. unfold path_join. apply String.eqb_neq in Ha. rewrite Ha, He.
  destruct b as [|c b]; [reflexivity|].
  simpl in Hb. destruct (Ascii.eqb c "/") eqn:E; [discriminate|].
  destruct c as [[] [] [] [] [] [] [] []]; try reflexivity; discriminate.
Qed.

(** A request without a file, with an empty file name, or with a file
    name that does not end in [.csv] is answered by an error page;
    nothing is written and no e-mail is started. *)
Theorem submit_rejects_upload (fs : gmap string dataframe) (req : request) :
  match req_file req with
  | None => True
  | Some f => filename f = EmptyString \/ str_endswith (filename f) ".csv" = false
  end ->
  exists msg,
    submit fs req = (fs, [], render_error msg) /\
    (msg = "Please upload a CSV file."%string \/ msg = "Only CSV files allowed."%string).
Proof.
  unfold submit. destruct (req_file req) as [f|]; [|eauto].
  intros [H|H].
  - rewrite H. simpl. eauto.
  - destruct (String.eqb (filename f) ""); [eauto|]. rewrite H. simpl. eauto.
Qed.

Lemma submit_rejects_upload_witness :
  exists msg,
    submit ∅ {| req_file := Some {| filename := "table.xlsx";
                                    file_content := three_columns |};
                req_weights := Some "1,1"%string;
                req_impacts := Some "+,-"%string;
                req_email := None |}
    = (∅, [], render_error msg) /\
    (msg = "Please upload a CSV file."%string \/ msg = "Only CSV files allowed."%string).
Proof. apply submit_rejects_upload. simpl. by right. Defined.

Lemma upload_path (name : string) :
  count_char "/" name = 0%nat ->
  path_join UPLOAD_FOLDER name = ("uploads/" ++ name)%string.
Proof. intros H. by rewrite path_join_plain. Qed.

Lemma form_field_tokens (v : option string) :
  tokens (form_field v) = tokens (default EmptyString v).
Proof.
  unfold form_field.
  replace (default EmptyString v)
    with (match v with Some s => s | None => EmptyString end) by (by destruct v).
  destruct (strip_decompose (match v with Some s => s | None => EmptyString end))
    as (a & b & Ha & Hb & Hs).
  rewrite Hs at 2. rewrite tokens_whitespace_app by exact Ha.
  by rewrite tokens_app_whitespace.
Qed.

(** When the uploaded table fails a validation, the answer is the
    error page with the message of the first validation that fails; the
    upload has been stored, the result file is untouched and no e-mail
    is started. *)
Theorem submit_validation_failure (fs : gmap string dataframe) (req : request)
    (f : upload) (m : string) :
  req_file req = Some f ->
  filename f <> EmptyString ->
  str_endswith (filename f) ".csv" = true ->
  count_char "/" (filename f) = 0%nat ->
  first_failure raised_messages (file_content f)
    (default EmptyString (req_weights req))
    (default EmptyString (req_impacts req)) = Some m ->
  submit fs req
  = (<[("uploads/" ++ filename f)%string := file_content f]> fs, [], render_error m) /\
  fst (fst (submit fs req)) !! "results/Result.csv"%string
  = fs !! "results/Result.csv"%string.
Proof.
  intros Hf Hname Hcsv Hslash Hfail.
  assert (E : submit fs req
              = (<[("uploads/" ++ filename f)%string := file_content f]> fs, [],
                 render_error m)).
  { unfold submit. rewrite Hf. apply String.eqb_neq in Hname. rewrite Hname, Hcsv.
    cbn [negb]. rewrite upload_path by exact Hslash.
    unfold topsis_calculate. rewrite lookup_insert_eq.
    rewrite (topsis_frame_first_failure _ _ _ m); [reflexivity|].
    rewrite <- Hfail. apply first_failure_tokens; apply form_field_tokens. }
  split; [exact E|]. rewrite E. cbn [fst].
  apply lookup_insert_ne. intros H.
  apply (f_equal (fun s => match s with String c _ => c | _ => "r"%char end)) in H.
  discriminate H.
Qed.

Lemma submit_validation_failure_witness :
  submit ∅ {| req_file := Some {| filename := "table.csv";
                                  file_content := two_columns |};
              req_weights := Some " 1,1 "%string;
              req_impacts := Some "+,-"%string;
              req_email := Some "a@b.co"%string |}
  = (<["uploads/table.csv"%string := two_columns]> ∅, [],
     render_error "Input file must contain 3 or more columns") /\
  fst (fst (submit ∅ {| req_file := Some {| filename := "table.csv";
                                            file_content := two_columns |};
                        req_weights := Some " 1,1 "%string;
                        req_impacts := Some "+,-"%string;
                        req_email := Some "a@b.co"%string |}))
    !! "results/Result.csv"%string
  = (∅ : gmap string dataframe) !! "results/Result.csv"%string.
Proof.
  apply (submit_validation_failure ∅ _ {| filename := "table.csv";
                                          file_content := two_columns |});
    try reflexivity. discriminate.
Defined.

(** When the run on the uploaded table succeeds, the upload and the
    result table are stored, the result file is sent back, and one
    e-mail delivery is started exactly when the address given, with the
    surrounding whitespace removed, is accepted by [validate_email]. *)
Theorem submit_success (fs : gmap string dataframe) (req : request)
    (f : upload) (out : dataframe) :
  req_file req = Some f ->
  filename f <> EmptyString ->
  str_endswith (filename f) ".csv" = true ->
  count_char "/" (filename f) = 0%nat ->
  topsis_frame (file_content f)
    (default EmptyString (req_weights req))
    (default EmptyString (req_impacts req)) = Ok out ->
  submit fs req
  = (<["results/Result.csv"%string := out]>
       (<[("uploads/" ++ filename f)%string := file_content f]> fs),
     if validate_email (form_field (req_email req))
     then [(form_field (req_email req), "results/Result.csv"%string)] else [],
     send_file "results/Result.csv").
Proof.
  intros Hf Hname Hcsv Hslash Hrun.
  unfold submit. rewrite Hf. apply String.eqb_neq in Hname. rewrite Hname, Hcsv.
  cbn [negb]. rewrite upload_path by exact Hslash.
  unfold topsis_calculate. rewrite lookup_insert_eq.
  rewrite (topsis_frame_tokens _ (default EmptyString (req_weights req)) _
             (default EmptyString (req_impacts req)))
    by apply form_field_tokens.
  rewrite Hrun. change (path_join RESULT_FOLDER "Result.csv") with "results/Result.csv"%string.
  do 2 f_equal.
  destruct (String.eqb (form_field (req_email req)) "") eqn:E; [|reflexivity].
  apply String.eqb_eq in E. by rewrite E.
Qed.

Lemma submit_success_witness :
  submit ∅ {| req_file := Some {| filename := "table.csv";
                                  file_content := three_columns |};
              req_weights := Some " 1,1 "%string;
              req_impacts := Some "+,-"%string;
              req_email := Some " a@b.co "%string |}
  = (<["results/Result.csv"%string :=
         three_columns ++
           [ ("Topsis Score", [CFloat (Fin 1); CFloat (Fin 0)]);
             ("Rank", [CInt 1; CInt 2]) ]%string]>
       (<["uploads/table.csv"%string := three_columns]> ∅),
     if validate_email (form_field (Some " a@b.co "%string))
     then [(form_field (Some " a@b.co "%string), "results/Result.csv"%string)] else [],
     send_file "results/Result.csv").
Proof.
  apply (submit_success ∅
           {| req_file := Some {| filename := "table.csv";
                                  file_content := three_columns |};
              req_weights := Some " 1,1 "%string;
              req_impacts := Some "+,-"%string;
              req_email := Some " a@b.co "%string |}
           {| filename := "table.csv"; file_content := three_columns |}
           (three_columns ++
              [ ("Topsis Score", [CFloat (Fin 1); CFloat (Fin 0)]);
                ("Rank", [CInt 1; CInt 2]) ]%string));
    [reflexivity|discriminate|reflexivity|reflexivity|].
  change (topsis_frame three_columns " 1,1 " "+,-"
          = Ok (three_columns ++
                  [ ("Topsis Score", [CFloat (Fin 1); CFloat (Fin 0)]);
                    ("Rank", [CInt 1; CInt 2]) ]%string)).
  rewrite (topsis_frame_tokens three_columns "1,1" " 1,1 " "+,-" "+,-")
    by reflexivity.
  exact example_run.
Defined.

(** ** Assigning a column *)

Lemma set_col_length (df : dataframe) (n : string) (c : list cell) :
  length (set_col df n c)
  = match get_col df n with
    | Some _ => length df
    | None => S (length df)
    end.
Proof.
  induction df as [|[n' c'] df IH]; simpl; [reflexivity|].
  destruct (String.eqb n' n); simpl; [reflexivity|].
  rewrite IH. by destruct (get_col df n).
Qed.

(** After [df[name] = col] the column [name] is [col], every other
    column is as before, and the frame has one column more exactly when
    it had no column [name]. *)
Theorem column_assignment (df : dataframe) (name : string) (col : list cell) :
  get_col (set_col df name col) name = Some col /\
  (forall other, other <> name ->
     get_col (set_col df name col) other = get_col df other) /\
  length (set_col df name col)
  = match get_col df name with
    | Some _ => length df
    | None => S (length df)
    end.
Proof.
  split; [apply get_col_set_col|]. split.
  - intros other Hne. apply get_col_set_col_ne. congruence.
  - rewrite set_col_length. by destruct (get_col df name).
Qed.

(** ** When a table is produced *)

(** A run produces a table exactly when none of the six validations
    fails and no score is [NaN]; the table is then the input with the
    two columns assigned. *)
Theorem table_produced_iff (df : dataframe) (ws ims : string) (out : dataframe) :
  topsis_frame df ws ims = Ok out <->
  first_failure raised_messages df ws ims = None /\
  exists w,
    mapM float_of_string (tokens ws) = Some w /\
    let score := topsis_score (nrows df)
                   (map (fun c => map to_numeric (snd c)) (tl df)) w (tokens ims) in
    Forall (fun s => isnan s = false) score /\
    out = set_col (set_col df "Topsis Score" (map CFloat score))
            "Rank" (map CInt (ranks_of score)).
Proof.
  split.
  - intros H. apply topsis_frame_ok in H as (data & w & Hv & Hn & ->).
    destruct (topsis_validate_ok _ _ _ _ _ _ Hv) as (-> & _ & Hw & Hff).
    split; [exact Hff|]. exists w. by repeat split.
  - intros (Hff & w & Hw & Hn & ->).
    pose proof (topsis_validate_first_failure df ws ims) as Hv.
    rewrite Hff in Hv. destruct Hv as (w' & Hw' & Hv).
    rewrite Hw in Hw'. injection Hw' as <-.
    apply topsis_frame_ok. eexists _, w. split; [exact Hv|]. by split.
Qed.

(** * The arithmetic of the machine *)

Section Machine.
Import Binary64.


(** ** Rounding and powers of two *)

Lemma Zdigits2_nonneg (m : Z) : (0 <= Zdigits2 m)%Z.
Proof. destruct m; simpl; lia. Qed.

Lemma fexp_unclipped (d e : Z) :
  (0 <= d)%Z -> (-1021 <= e)%Z -> fexp prec emax (d + e) = (d + e - 53)%Z.
Proof. unfold fexp, SpecFloat.emin, prec, emax. lia. Qed.

Lemma shr_fexp_shift (m e k : Z) (l : location) :
  (-1021 <= e)%Z -> (-1021 <= e + k)%Z ->
  shr_fexp prec emax m (e + k) l
  = (fst (shr_fexp prec emax m e l), snd (shr_fexp prec emax m e l) + k)%Z
  /\ (e <= snd (shr_fexp prec emax m e l))%Z.
Proof.
  intros He Hk. unfold shr_fexp.
  rewrite !fexp_unclipped by (auto using Zdigits2_nonneg).
  replace (Zdigits2 m + (e + k) - 53 - (e + k))%Z with (Zdigits2 m - 53)%Z by lia.
  replace (Zdigits2 m + e - 53 - e)%Z with (Zdigits2 m - 53)%Z by lia.
  destruct (Zdigits2 m - 53)%Z as [|p|p]; simpl; split; try f_equal; lia.
Qed.

Lemma room_fits (k j : Z) (x : float64) :
  (Z.abs j <= 2 * Z.abs k)%Z -> room k x = true -> fits j x = true.
Proof.
  intros Hj. destruct x as [s| s| |s m e]; simpl; auto.
  intros H. apply andb_prop in H. destruct H as [H1 H2].
  apply Z.leb_le in H1, H2. apply Z.leb_le. lia.
Qed.

Lemma room_exponent (k : Z) (s : bool) (m : positive) (e : Z) :
  room k (S754_finite s m e) = true ->
  (2 * Z.abs k - 500 <= e <= 900 - 2 * Z.abs k)%Z.
Proof.
  simpl. intros H. apply andb_prop in H. destruct H as [H1 H2].
  apply Z.leb_le in H1, H2. lia.
Qed.

Lemma binary_round_aux_shift (s : bool) (m e j : Z) (l : location) :
  (-1021 <= e)%Z -> (-1021 <= e + j)%Z ->
  fits j (binary_round_aux prec emax s m e l) = true ->
  binary_round_aux prec emax s m (e + j) l
  = shift j (binary_round_aux prec emax s m e l).
Proof.
  intros He Hk. unfold binary_round_aux.
  destruct (shr_fexp_shift m e j l He Hk) as [E1 L1]. rewrite E1.
  destruct (shr_fexp prec emax m e l) as [r1 e1]. simpl in *.
  set (m2 := round_nearest_even (shr_m r1) (loc_of_shr_record r1)).
  destruct (shr_fexp_shift m2 e1 j loc_Exact) as [E2 L2]; [lia | lia |].
  rewrite E2. destruct (shr_fexp prec emax m2 e1 loc_Exact) as [r2 e2]. simpl in *.
  destruct (shr_m r2) as [|p|p]; simpl; auto.
  destruct (Z.leb_spec e2 (emax - prec)) as [Hle|Hgt]; simpl; [|discriminate].
  intros Hr. apply Z.leb_le in Hr.
  destruct (Z.leb_spec (e2 + j) (emax - prec)) as [Hle'|Hgt']; auto.
  unfold emax, prec in *. lia.
Qed.

Lemma shl_align_shift (m : positive) (e e' j : Z) :
  shl_align m (e + j) (e' + j)
  = (fst (shl_align m e e'), snd (shl_align m e e') + j)%Z.
Proof.
  unfold shl_align. replace (e' + j - (e + j))%Z with (e' - e)%Z by lia.
  destruct (e' - e)%Z; reflexivity.
Qed.

Lemma shl_align_exponent (m : positive) (e e' : Z) :
  (Z.min e e' <= snd (shl_align m e e'))%Z.
Proof.
  unfold shl_align. destruct (e' - e)%Z eqn:E; simpl; lia.
Qed.

Lemma binary_round_shift (s : bool) (m : positive) (e j : Z) :
  (-969 <= e)%Z -> (-969 <= e + j)%Z ->
  fits j (binary_round prec emax s m e) = true ->
  binary_round prec emax s m (e + j) = shift j (binary_round prec emax s m e).
Proof.
  intros He Hj. unfold binary_round.
  rewrite !fexp_unclipped by lia.
  replace (Z.pos (digits2_pos m) + (e + j) - 53)%Z
    with ((Z.pos (digits2_pos m) + e - 53) + j)%Z by lia.
  rewrite shl_align_shift.
  pose proof (shl_align_exponent m e (Z.pos (digits2_pos m) + e - 53)) as Hx.
  destruct (shl_align m e (Z.pos (digits2_pos m) + e - 53)) as [mz ez].
  simpl in *. apply binary_round_aux_shift; lia.
Qed.

Lemma binary_normalize_shift (M e j : Z) :
  (-969 <= e)%Z -> (-969 <= e + j)%Z ->
  fits j (binary_normalize prec emax M e false) = true ->
  binary_normalize prec emax M (e + j) false
  = shift j (binary_normalize prec emax M e false).
Proof.
  intros He Hj. destruct M; simpl; auto using binary_round_shift.
Qed.

(** *** The operations *)

Lemma isnan_shift (j : Z) (x : float64) : isnan (shift j x) = isnan x.
Proof. destruct x; reflexivity. Qed.

Lemma compare_shift (j : Z) (x y : float64) :
  SFcompare (shift j x) (shift j y) = SFcompare x y.
Proof.
  destruct x as [sx| sx| |sx mx ex], y as [sy| sy| |sy my ey]; simpl; auto.
  rewrite !(Z.add_comm _ j), Z.add_compare_mono_l. reflexivity.
Qed.

Lemma leb_shift (j : Z) (x y : float64) : leb (shift j x) (shift j y) = leb x y.
Proof. unfold leb, SFleb. rewrite compare_shift. reflexivity. Qed.

Lemma div_shift (j : Z) (x y : float64) : div (shift j x) (shift j y) = div x y.
Proof.
  destruct x as [sx| sx| |sx mx ex], y as [sy| sy| |sy my ey]; simpl; auto.
  unfold div, SFdiv, SFdiv_core_binary.
  replace (Zdigits2 (Z.pos mx) + (ex + j) - (Zdigits2 (Z.pos my) + (ey + j)))%Z
    with (Zdigits2 (Z.pos mx) + ex - (Zdigits2 (Z.pos my) + ey))%Z by lia.
  replace (ex + j - (ey + j))%Z with (ex - ey)%Z by lia.
  reflexivity.
Qed.

Ltac special_values :=
  intros; try reflexivity; try (exfalso; simpl in *; discriminate).

Lemma mul_shift (k : Z) (x w : float64) :
  room k x = true -> room k w = true -> room k (mul x w) = true ->
  mul x (shift k w) = shift k (mul x w).
Proof.
  destruct x as [sx| sx| |sx mx ex], w as [sw| sw| |sw mw ew]; special_values.
  match goal with Hx : room _ _ = _, Hw : room _ _ = _ |- _ =>
    apply room_exponent in Hx, Hw end.
  unfold mul in *. cbn [SFmul shift] in *.
  rewrite Z.add_assoc. apply binary_round_aux_shift; [lia | lia |].
  apply (room_fits k); auto. lia.
Qed.

Lemma square_shift (k : Z) (x : float64) :
  room k x = true -> room k (square x) = true ->
  square (shift k x) = shift (2 * k) (square x).
Proof.
  destruct x as [sx| sx| |sx mx ex]; special_values.
  match goal with Hx : room _ (S754_finite _ _ _) = _ |- _ =>
    apply room_exponent in Hx end.
  unfold square, mul in *. cbn [SFmul shift] in *.
  replace (ex + k + (ex + k))%Z with (ex + ex + 2 * k)%Z by lia.
  apply binary_round_aux_shift; [lia | lia |].
  apply (room_fits k); auto. lia.
Qed.

Lemma add_shift (k j : Z) (x y : float64) :
  (Z.abs j <= 2 * Z.abs k)%Z ->
  room k x = true -> room k y = true -> room k (add x y) = true ->
  add (shift j x) (shift j y) = shift j (add x y).
Proof.
  intros Hj.
  destruct x as [sx| sx| |sx mx ex], y as [sy| sy| |sy my ey]; special_values.
  - destruct sx, sy; reflexivity.
  - match goal with Hx : room _ _ = _, Hy : room _ _ = _ |- _ =>
      apply room_exponent in Hx, Hy end.
    unfold add in *. cbn [SFadd shift] in *.
    rewrite Z.add_min_distr_r. rewrite !shl_align_shift. simpl fst.
    apply binary_normalize_shift; [lia | lia |].
    apply (room_fits k); auto.
Qed.

Lemma sub_shift (k j : Z) (x y : float64) :
  (Z.abs j <= 2 * Z.abs k)%Z ->
  room k x = true -> room k y = true -> room k (sub x y) = true ->
  sub (shift j x) (shift j y) = shift j (sub x y).
Proof.
  intros Hj.
  destruct x as [sx| sx| |sx mx ex], y as [sy| sy| |sy my ey]; special_values.
  - destruct sx, sy; reflexivity.
  - match goal with Hx : room _ _ = _, Hy : room _ _ = _ |- _ =>
      apply room_exponent in Hx, Hy end.
    unfold sub in *. cbn [SFsub shift] in *.
    rewrite Z.add_min_distr_r. rewrite !shl_align_shift. simpl fst.
    apply binary_normalize_shift; [lia | lia |].
    apply (room_fits k); auto.
Qed.

Lemma fexp_above (x : Z) : (-1021 <= x)%Z -> fexp prec emax x = (x - 53)%Z.
Proof. unfold fexp, SpecFloat.emin, prec, emax. lia. Qed.

Lemma div2_bounds (x : Z) : (2 * Z.div2 x <= x <= 2 * Z.div2 x + 1)%Z.
Proof.
  pose proof (Z.div2_odd x) as H. destruct (Z.odd x); simpl in H; lia.
Qed.

Lemma div2_add_even (x k : Z) : Z.div2 (x + 2 * k) = (Z.div2 x + k)%Z.
Proof.
  pose proof (div2_bounds x). pose proof (div2_bounds (x + 2 * k)). lia.
Qed.

Lemma sqrt_core_shift (m : positive) (e k : Z) :
  (-1000 <= e)%Z -> (-1000 <= e + 2 * k)%Z ->
  SFsqrt_core_binary prec emax (Z.pos m) (e + 2 * k)
  = (fst (fst (SFsqrt_core_binary prec emax (Z.pos m) e)),
     snd (fst (SFsqrt_core_binary prec emax (Z.pos m) e)) + k,
     snd (SFsqrt_core_binary prec emax (Z.pos m) e))%Z
  /\ (-600 <= snd (fst (SFsqrt_core_binary prec emax (Z.pos m) e)))%Z
  /\ (-600 <= snd (fst (SFsqrt_core_binary prec emax (Z.pos m) e)) + k)%Z.
Proof.
  intros He Hk. unfold SFsqrt_core_binary.
  pose proof (Zdigits2_nonneg (Z.pos m)) as Hd.
  set (d := Zdigits2 (Z.pos m)) in *.
  replace (d + (e + 2 * k) + 1)%Z with (d + e + 1 + 2 * k)%Z by lia.
  rewrite !div2_add_even.
  pose proof (div2_bounds (d + e + 1)) as B1.
  pose proof (div2_bounds e) as B2.
  rewrite !fexp_above by lia.
  replace (Z.min (Z.div2 (d + e + 1) + k - 53) (Z.div2 e + k))
    with (Z.min (Z.div2 (d + e + 1) - 53) (Z.div2 e) + k)%Z by lia.
  set (e' := Z.min (Z.div2 (d + e + 1) - 53) (Z.div2 e)).
  replace (e + 2 * k - 2 * (e' + k))%Z with (e - 2 * e')%Z by lia.
  destruct (Z.sqrtrem _) as [q r]. simpl. split; [reflexivity | lia].
Qed.

Lemma sqrt_shift (k : Z) (x : float64) :
  room k x = true -> room k (sqrt x) = true ->
  sqrt (shift (2 * k) x) = shift k (sqrt x).
Proof.
  destruct x as [sx| sx| |sx mx ex]; special_values.
  destruct sx; special_values.
  match goal with Hx : room _ (S754_finite _ _ _) = _ |- _ =>
    apply room_exponent in Hx end.
  unfold sqrt in *. cbn [SFsqrt shift] in *.
  destruct (sqrt_core_shift mx ex k) as (E & L & Hk); [lia | lia |].
  rewrite E.
  destruct (SFsqrt_core_binary prec emax (Z.pos mx) ex) as [[q e'] l].
  cbn [fst snd] in *.
  apply binary_round_aux_shift; [lia | lia |].
  apply (room_fits k); auto. lia.
Qed.

(** Multiplying a normal float by [2 ^ k] moves its exponent. *)
Lemma mul_two_power_0 (s : bool) (m : positive) (e : Z) :
  digits2_pos m = 53%positive -> (-969 <= e <= 971)%Z ->
  binary_round_aux prec emax s (Z.pos (4503599627370496 * m)) (e - 52) loc_Exact
  = S754_finite s m e.
Proof.
  intros Hm He. unfold binary_round_aux, shr_fexp.
  assert (Hd : Zdigits2 (Z.pos (4503599627370496 * m)) = 105%Z).
  { cbv beta iota delta [Pos.mul]. simpl. rewrite Hm. reflexivity. }
  rewrite Hd. rewrite fexp_unclipped by lia.
  replace (105 + (e - 52) - 53 - (e - 52))%Z with 52%Z by lia.
  cbn [shr]. cbv beta iota delta [Pos.mul]. cbn [SpecFloat.iter_pos shr_1 shr_record_of_loc orb].
  cbn [shr_m loc_of_shr_record round_nearest_even].
  cbn [Zdigits2]. rewrite Hm. rewrite fexp_unclipped by lia.
  replace (53 + (e - 52 + 52) - 53 - (e - 52 + 52))%Z with 0%Z by lia.
  cbn [shr shr_record_of_loc shr_m].
  replace (e - 52 + 52)%Z with e by lia.
  destruct (Z.leb_spec e (emax - prec)) as [H|H]; [reflexivity|].
  unfold emax, prec in H. lia.
Qed.

Lemma mul_two_power (k : Z) (w : float64) :
  normal w = true -> room k w = true ->
  mul (two_power k) w = shift k w.
Proof.
  destruct w as [s| s| |s m e]; special_values.
  match goal with Hn : normal _ = _, Hw : room _ _ = _ |- _ =>
    apply room_exponent in Hw; unfold normal in Hn; apply Pos.eqb_eq in Hn end.
  unfold mul, two_power. cbn [SFmul shift xorb].
  replace (k - 52 + e)%Z with (e - 52 + k)%Z by lia.
  rewrite binary_round_aux_shift; rewrite ?mul_two_power_0 by (auto; lia);
    try lia; try reflexivity.
  simpl. apply Z.leb_le. lia.
Qed.

(** *** Lists of floats *)

Lemma shift_zero (j : Z) : shift j zero = zero.
Proof. reflexivity. Qed.

Lemma skipna_shift (j : Z) (x : float64) : skipna (shift j x) = shift j (skipna x).
Proof. destruct x; reflexivity. Qed.

Lemma max2_shift (j : Z) (a b : float64) :
  max2 (shift j a) (shift j b) = shift j (max2 a b).
Proof. unfold max2. rewrite leb_shift. destruct (leb b a); reflexivity. Qed.

Lemma min2_shift (j : Z) (a b : float64) :
  min2 (shift j a) (shift j b) = shift j (min2 a b).
Proof. unfold min2. rewrite leb_shift. destruct (leb a b); reflexivity. Qed.

Lemma fold_shift (f : float64 -> float64 -> float64) (j : Z) :
  (forall a b, f (shift j a) (shift j b) = shift j (f a b)) ->
  forall xs acc,
    fold_left f (map (shift j) xs) (shift j acc) = shift j (fold_left f xs acc).
Proof.
  intros Hf xs. induction xs as [|x xs IH]; intros acc; simpl; auto.
  rewrite Hf. apply IH.
Qed.

Lemma filter_shift (j : Z) (xs : list float64) :
  List.filter (fun x => negb (isnan x)) (map (shift j) xs)
  = map (shift j) (List.filter (fun x => negb (isnan x)) xs).
Proof.
  induction xs as [|x xs IH]; simpl; auto.
  rewrite isnan_shift. destruct (isnan x); simpl; rewrite IH; reflexivity.
Qed.

Lemma nanmax_shift (j : Z) (xs : list float64) :
  nanmax (map (shift j) xs) = shift j (nanmax xs).
Proof.
  unfold nanmax. rewrite filter_shift.
  destruct (List.filter _ xs) as [|x l]; simpl; auto.
  apply fold_shift, max2_shift.
Qed.

Lemma nanmin_shift (j : Z) (xs : list float64) :
  nanmin (map (shift j) xs) = shift j (nanmin xs).
Proof.
  unfold nanmin. rewrite filter_shift.
  destruct (List.filter _ xs) as [|x l]; simpl; auto.
  apply fold_shift, min2_shift.
Qed.

Lemma ideal_points_shift (j : Z) (wd : matrix) (ims : list string) :
  ideal_points (map (map (shift j)) wd) ims
  = (map (shift j) (fst (ideal_points wd ims)),
     map (shift j) (snd (ideal_points wd ims))).
Proof.
  revert ims. induction wd as [|col wd IH]; intros [|i ims]; simpl; auto.
  rewrite IH. destruct (ideal_points wd ims) as [b w]. simpl.
  rewrite nanmax_shift, nanmin_shift.
  destruct (String.eqb i "+"); reflexivity.
Qed.

Lemma partial_sums_head (k : Z) (acc : float64) (xs : list float64) :
  forallb (room k) (partial_sums acc xs) = true -> room k acc = true.
Proof. destruct xs; simpl; intros H; apply andb_prop in H; tauto. Qed.

Lemma partial_sums_total (k : Z) (xs : list float64) :
  forall acc,
    forallb (room k) (partial_sums acc xs) = true ->
    room k (fold_left add xs acc) = true.
Proof.
  induction xs as [|x xs IH]; intros acc H; simpl in *.
  - apply andb_prop in H. tauto.
  - apply andb_prop in H. destruct H as [_ H]. auto.
Qed.

Lemma fold_add_shift (k j : Z) (xs : list float64) :
  (Z.abs j <= 2 * Z.abs k)%Z ->
  forall acc,
    forallb (room k) xs = true ->
    forallb (room k) (partial_sums acc xs) = true ->
    fold_left add (map (shift j) xs) (shift j acc)
    = shift j (fold_left add xs acc).
Proof.
  intros Hj. induction xs as [|x xs IH]; intros acc Hx Hs; simpl in *; auto.
  apply andb_prop in Hx. destruct Hx as [Hx Hxs].
  apply andb_prop in Hs. destruct Hs as [Ha Hs].
  rewrite (add_shift k) by eauto using partial_sums_head.
  apply IH; auto.
Qed.

Lemma nansum_shift (k j : Z) (xs : list float64) :
  (Z.abs j <= 2 * Z.abs k)%Z ->
  roomy_sum k xs = true ->
  nansum (map (shift j) xs) = shift j (nansum xs).
Proof.
  intros Hj H. unfold roomy_sum in H. apply andb_prop in H. destruct H as [H1 H2].
  unfold nansum.
  rewrite map_map.
  rewrite (map_ext (fun x => skipna (shift j x)) (fun x => shift j (skipna x)))
    by (intros; apply skipna_shift).
  rewrite <- (map_map skipna (shift j)).
  rewrite <- (shift_zero j) at 1.
  apply (fold_add_shift k); auto.
Qed.

Lemma nansum_room (k : Z) (xs : list float64) :
  roomy_sum k xs = true -> room k (nansum xs) = true.
Proof.
  intros H. unfold roomy_sum in H. apply andb_prop in H. destruct H as [_ H].
  unfold nansum. apply partial_sums_total. exact H.
Qed.

Lemma nth_shift (j : Z) (i : nat) (col : list float64) :
  nth i (map (shift j) col) nan = shift j (nth i col nan).
Proof. change nan with (shift j nan) at 1. apply map_nth. Qed.

Lemma row_sums_shift (k j : Z) (m : nat) (M : matrix) :
  (Z.abs j <= 2 * Z.abs k)%Z ->
  forallb (fun i => roomy_sum k (map (fun col => nth i col nan) M)) (seq 0 m) = true ->
  row_sums m (map (map (shift j)) M) = map (shift j) (row_sums m M).
Proof.
  intros Hj. unfold row_sums. generalize 0%nat.
  induction m as [|m IH]; intros i H; simpl in *; auto.
  apply andb_prop in H. destruct H as [Hi H].
  rewrite IH by auto. f_equal.
  rewrite map_map.
  rewrite (map_ext (fun col => nth i (map (shift j) col) nan)
                   (fun col => shift j (nth i col nan)))
    by (intros; apply nth_shift).
  rewrite <- (map_map (fun col => nth i col nan) (shift j)).
  apply (nansum_shift k); auto.
Qed.

Lemma row_sums_room (k : Z) (m : nat) (M : matrix) :
  forallb (fun i => roomy_sum k (map (fun col => nth i col nan) M)) (seq 0 m) = true ->
  forallb (room k) (row_sums m M) = true.
Proof.
  unfold row_sums. generalize 0%nat.
  induction m as [|m IH]; intros i H; simpl in *; auto.
  apply andb_prop in H. destruct H as [Hi H].
  rewrite nansum_room, IH; auto.
Qed.

(** Columns combined with one value each. *)
Lemma broadcast_shift (op : float64 -> float64 -> float64) (k j j' : Z) :
  (forall x d, room k x = true -> room k d = true -> room k (op x d) = true ->
               op (shift j x) (shift j d) = shift j' (op x d)) ->
  forall data v,
    forallb (forallb (room k)) data = true ->
    forallb (room k) v = true ->
    forallb (forallb (room k)) (broadcast op data v) = true ->
    broadcast op (map (map (shift j)) data) (map (shift j) v)
    = map (map (shift j')) (broadcast op data v).
Proof.
  intros Hop. unfold broadcast.
  induction data as [|col data IH]; intros [|d v] Hd Hv Hr; simpl in *; auto.
  apply andb_prop in Hd. destruct Hd as [Hc Hd].
  apply andb_prop in Hv. destruct Hv as [Hd0 Hv].
  apply andb_prop in Hr. destruct Hr as [Hrc Hr].
  rewrite IH by auto. f_equal.
  clear IH Hd Hv Hr. induction col as [|x col IHc]; simpl in *; auto.
  apply andb_prop in Hc. destruct Hc as [Hx Hc].
  apply andb_prop in Hrc. destruct Hrc as [Hrx Hrc].
  rewrite Hop, IHc by auto. reflexivity.
Qed.

Lemma broadcast_mul_shift (k : Z) :
  forall data v,
    forallb (forallb (room k)) data = true ->
    forallb (room k) v = true ->
    forallb (forallb (room k)) (broadcast mul data v) = true ->
    broadcast mul data (map (shift k) v)
    = map (map (shift k)) (broadcast mul data v).
Proof.
  unfold broadcast.
  induction data as [|col data IH]; intros [|d v] Hd Hv Hr; simpl in *; auto.
  apply andb_prop in Hd. destruct Hd as [Hc Hd].
  apply andb_prop in Hv. destruct Hv as [Hd0 Hv].
  apply andb_prop in Hr. destruct Hr as [Hrc Hr].
  rewrite IH by auto. f_equal.
  clear IH Hd Hv Hr. induction col as [|x col IHc]; simpl in *; auto.
  apply andb_prop in Hc. destruct Hc as [Hx Hc].
  apply andb_prop in Hrc. destruct Hrc as [Hrx Hrc].
  rewrite mul_shift, IHc by auto. reflexivity.
Qed.

Lemma map_square_shift (k : Z) (M : matrix) :
  forallb (forallb (room k)) M = true ->
  forallb (forallb (room k)) (map (map square) M) = true ->
  map (map square) (map (map (shift k)) M)
  = map (map (shift (2 * k))) (map (map square) M).
Proof.
  induction M as [|col M IH]; intros HM Hs; simpl in *; auto.
  apply andb_prop in HM. destruct HM as [Hc HM].
  apply andb_prop in Hs. destruct Hs as [Hsc Hs].
  rewrite IH by auto. f_equal.
  clear IH HM Hs. induction col as [|x col IHc]; simpl in *; auto.
  apply andb_prop in Hc. destruct Hc as [Hx Hc].
  apply andb_prop in Hsc. destruct Hsc as [Hsx Hsc].
  rewrite square_shift, IHc by auto. reflexivity.
Qed.

Lemma map_sqrt_shift (k : Z) (xs : list float64) :
  forallb (room k) xs = true ->
  forallb (room k) (map sqrt xs) = true ->
  map sqrt (map (shift (2 * k)) xs) = map (shift k) (map sqrt xs).
Proof.
  induction xs as [|x xs IH]; intros Hx Hs; simpl in *; auto.
  apply andb_prop in Hx. destruct Hx as [Hx Hxs].
  apply andb_prop in Hs. destruct Hs as [Hs Hss].
  rewrite sqrt_shift, IH by auto. reflexivity.
Qed.

Lemma distances_shift (k : Z) (m : nat) (wd : matrix) (ideal : list float64) :
  forallb (forallb (room k)) wd = true ->
  forallb (room k) ideal = true ->
  roomy_distances k m wd ideal = true ->
  distances m (map (map (shift k)) wd) (map (shift k) ideal)
  = map (shift k) (distances m wd ideal).
Proof.
  intros Hwd Hid H. unfold roomy_distances in H.
  apply andb_prop in H. destruct H as [H H4].
  apply andb_prop in H. destruct H as [H H3].
  apply andb_prop in H. destruct H as [H1 H2].
  unfold distances in *.
  rewrite (broadcast_shift sub k k k) by (auto; intros; apply (sub_shift k); auto; lia).
  rewrite map_square_shift by auto.
  rewrite (row_sums_shift k) by (auto; lia).
  apply map_sqrt_shift; auto using row_sums_room.
Qed.

Lemma zip_add_shift (k : Z) (xs ys : list float64) :
  forallb (room k) xs = true -> forallb (room k) ys = true ->
  forallb (room k) (zip_with add xs ys) = true ->
  zip_with add (map (shift k) xs) (map (shift k) ys)
  = map (shift k) (zip_with add xs ys).
Proof.
  revert ys. induction xs as [|x xs IH]; intros [|y ys] Hx Hy Hr; simpl in *; auto.
  apply andb_prop in Hx. destruct Hx as [Hx Hxs].
  apply andb_prop in Hy. destruct Hy as [Hy Hys].
  apply andb_prop in Hr. destruct Hr as [Hr Hrs].
  rewrite (add_shift k), IH by (auto; lia). reflexivity.
Qed.

Lemma zip_div_shift (j : Z) (xs ys : list float64) :
  zip_with div (map (shift j) xs) (map (shift j) ys) = zip_with div xs ys.
Proof.
  revert ys. induction xs as [|x xs IH]; intros [|y ys]; simpl; auto.
  rewrite div_shift, IH. reflexivity.
Qed.

Lemma weights_shift (k : Z) (ws : list float64) :
  forallb (fun w => normal w && room k w) ws = true ->
  map (mul (two_power k)) ws = map (shift k) ws /\ forallb (room k) ws = true.
Proof.
  induction ws as [|w ws IH]; intros H; cbn [map forallb] in *; auto.
  apply andb_prop in H. destruct H as [Hw H].
  apply andb_prop in Hw. destruct Hw as [Hn Hr].
  destruct (IH H) as [E R]. rewrite E, R, Hr, mul_two_power by auto. auto.
Qed.

Lemma distances_room (k : Z) (m : nat) (wd : matrix) (ideal : list float64) :
  roomy_distances k m wd ideal = true ->
  forallb (room k) (distances m wd ideal) = true.
Proof.
  unfold roomy_distances. intros H. apply andb_prop in H. tauto.
Qed.

(** ** Rescaling the weights *)

(** C6 (amended): with every weight multiplied by a power of two,
    [2 ^ k], every row has the same score, and the ranks are the same,
    as with the original weights, provided no step of the original run
    overflows, underflows or yields [NaN] and there is room for the
    factor ([roomy_run]). *)
Theorem weights_rescaling_power_of_two (k : Z) (m : nat) (data : list column)
    (weights : list float64) (impacts : list string) :
  roomy_run k m data weights impacts = true ->
  topsis_score m data (map (mul (two_power k)) weights) impacts
  = topsis_score m data weights impacts
  /\ topsis_rank m data (map (mul (two_power k)) weights) impacts
     = topsis_rank m data weights impacts.
Proof.
  intros H.
  assert (E : topsis_score m data (map (mul (two_power k)) weights) impacts
              = topsis_score m data weights impacts).
  { unfold roomy_run in H. unfold topsis_score, weighted.
    set (nd := broadcast div (map values data) (col_norms data)) in *.
    set (wd := broadcast mul nd weights) in *.
    destruct (ideal_points wd impacts) as [b w] eqn:Ei.
    repeat match type of H with
           | (_ && _)%bool = true =>
               let H' := fresh "H" in
               apply andb_prop in H; destruct H as [H H']
           end.
    destruct (weights_shift k weights H) as [Ew Rw].
    rewrite Ew, broadcast_mul_shift by auto. fold wd.
    rewrite ideal_points_shift, Ei. simpl fst. simpl snd.
    rewrite !distances_shift by auto.
    rewrite zip_add_shift by auto using distances_room.
    apply zip_div_shift. }
  split; [exact E|]. unfold topsis_rank. rewrite E. reflexivity.
Qed.

Lemma weights_rescaling_power_of_two_witness :
  roomy_run 3 3 close_table [one; one] ["+"; "-"]%string = true /\
  topsis_score 3 close_table (map (mul (two_power 3)) [one; one]) ["+"; "-"]%string
  = topsis_score 3 close_table [one; one] ["+"; "-"]%string /\
  topsis_rank 3 close_table (map (mul (two_power 3)) [one; one]) ["+"; "-"]%string
  = topsis_rank 3 close_table [one; one] ["+"; "-"]%string.
Proof.
  split; [vm_compute; reflexivity|].
  apply weights_rescaling_power_of_two. vm_compute. reflexivity.
Defined.

(** C6, as stated, fails.  With the weights [1,1] multiplied by 3 the
    scores of [A] and [B] in [close_table] (0.43960780543711386 and
    0.4396078054371139) become 0.439607805437114 and
    0.4396078054371139: the two alternatives change places.  With the
    weights multiplied by [1e200] the weighted values of [unit_table]
    overflow, a score is [inf / inf] and the run ends in the error of
    the integer conversion. *)
Lemma weights_rescaling_changes_ranks :
  topsis_rank 3 close_table [one; one] ["+"; "-"]%string
  = Ok ([S754_finite false 7919270195022990 (-54);
         S754_finite false 7919270195022991 (-54); one], [3; 2; 1]%Z) /\
  topsis_rank 3 close_table (map (mul (of_int 3)) [one; one]) ["+"; "-"]%string
  = Ok ([S754_finite false 7919270195022992 (-54);
         S754_finite false 7919270195022991 (-54); one], [2; 3; 1]%Z) /\
  topsis_rank 2 unit_table [one; one] ["+"; "-"]%string
  = Ok ([one; zero], [1; 2]%Z) /\
  topsis_score 2 unit_table (map (mul (of_int (10 ^ 200))) [one; one])
    ["+"; "-"]%string = [nan; zero] /\
  topsis_rank 2 unit_table (map (mul (of_int (10 ^ 200))) [one; one])
    ["+"; "-"]%string = Raise IntCastingNaNError.
Proof. repeat split; vm_compute; reflexivity. Qed.

(** ** The scoring formula *)

Lemma nth_map_seq {A : Type} (f : nat -> A) (m i : nat) (d : A) :
  (i < m)%nat -> nth i (map f (seq 0 m)) d = f i.
Proof.
  intros H. rewrite (nth_indep _ d (f 0%nat)) by (by rewrite length_map, length_seq).
  rewrite map_nth, seq_nth by exact H. reflexivity.
Qed.

Lemma list_tabulate {A : Type} (l : list A) (m : nat) (d : A) :
  length l = m -> l = map (fun i => nth i l d) (seq 0 m).
Proof.
  intros H. apply (nth_ext _ _ d d).
  - by rewrite length_map, length_seq.
  - intros i Hi. rewrite nth_map_seq by lia. reflexivity.
Qed.

Lemma values_tabulate (data : list column) (m : nat) :
  Forall (fun c => length (values c) = m) data ->
  map values data = tabulate (length data) m (entry data).
Proof.
  intros H. unfold tabulate, entry.
  rewrite (list_tabulate data (length data) (Float64 [])) at 1 by reflexivity.
  rewrite map_map. apply map_ext_in. intros j Hj. apply in_seq in Hj.
  apply list_tabulate. rewrite List.Forall_forall in H. apply H.
  apply nth_In. lia.
Qed.

Lemma zip_with_map {A B C D : Type} (f : B -> C -> D) (g : A -> B) (h : A -> C)
    (l : list A) :
  zip_with f (map g l) (map h l) = map (fun x => f (g x) (h x)) l.
Proof. induction l as [|x l IH]; simpl; [reflexivity|]. by rewrite IH. Qed.

Lemma broadcast_tabulate (op : float64 -> float64 -> float64) (n m : nat)
    (f : nat -> nat -> float64) (g : nat -> float64) :
  broadcast op (tabulate n m f) (map g (seq 0 n))
  = tabulate n m (fun i j => op (f i j) (g j)).
Proof.
  unfold broadcast, tabulate. rewrite zip_with_map.
  apply map_ext. intros j. by rewrite map_map.
Qed.

Lemma ideal_points_map (F : nat -> list float64) (I : nat -> string) (l : list nat) :
  ideal_points (map F l) (map I l)
  = (map (fun j => if String.eqb (I j) "+" then nanmax (F j) else nanmin (F j)) l,
     map (fun j => if String.eqb (I j) "+" then nanmin (F j) else nanmax (F j)) l).
Proof.
  induction l as [|j l IH]; simpl; [reflexivity|].
  rewrite IH. by destruct (String.eqb (I j) "+").
Qed.

Lemma row_sums_tabulate (n m : nat) (f : nat -> nat -> float64) :
  row_sums m (tabulate n m f)
  = map (fun i => nansum (map (fun j => f i j) (seq 0 n))) (seq 0 m).
Proof.
  unfold row_sums, tabulate. apply map_ext_in. intros i Hi. apply in_seq in Hi.
  f_equal. rewrite map_map. apply map_ext. intros j.
  apply (nth_map_seq (fun i => f i j)). lia.
Qed.

Lemma map_square_tabulate (n m : nat) (f : nat -> nat -> float64) :
  map (map square) (tabulate n m f) = tabulate n m (fun i j => square (f i j)).
Proof.
  unfold tabulate. rewrite map_map. apply map_ext. intros j. by rewrite map_map.
Qed.

Lemma distances_tabulate (n m : nat) (f : nat -> nat -> float64) (g : nat -> float64) :
  distances m (tabulate n m f) (map g (seq 0 n))
  = map (fun i => sqrt (nansum (map (fun j => square (sub (f i j) (g j)))
                                  (seq 0 n)))) (seq 0 m).
Proof.
  unfold distances.
  by rewrite broadcast_tabulate, map_square_tabulate, row_sums_tabulate, map_map.
Qed.

(** The program computes, row by row, the closeness of the formula
    taken with its own norms and with the reductions that leave [NaN]
    out. *)
Lemma topsis_score_skipna (m : nat) (data : list column) (w : list float64)
    (imp : list string) :
  Forall (fun c => length (values c) = m) data ->
  length w = length data -> length imp = length data ->
  topsis_score m data w imp = skipna_score m data w imp.
Proof.
  intros Hcols Hw Hi. unfold topsis_score, skipna_score, weighted. cbv zeta.
  set (n := length data) in *.
  set (D := entry data). set (W := weight_of w). set (B := is_benefit imp).
  set (N := fun j => nth j (col_norms data) nan).
  assert (Hd : map values data = tabulate n m D) by (by apply values_tabulate).
  assert (Hn : col_norms data = map N (seq 0 n))
    by (apply list_tabulate; unfold col_norms; by rewrite length_map).
  assert (Hw' : w = map W (seq 0 n)) by (by apply list_tabulate).
  assert (Hi' : imp = map (fun j => nth j imp EmptyString) (seq 0 n))
    by (by apply list_tabulate).
  rewrite Hd, Hw', Hi', Hn.
  rewrite !broadcast_tabulate.
  unfold tabulate at 1. rewrite ideal_points_map.
  rewrite !distances_tabulate, !zip_with_map.
  reflexivity.
Qed.

(** *** Where the formula as written yields a number *)

Lemma add_notnan (a b : float64) :
  isnan (add a b) = false -> isnan a = false /\ isnan b = false.
Proof. destruct a, b; intros H; split; try reflexivity; discriminate. Qed.

Lemma sub_notnan (a b : float64) :
  isnan (sub a b) = false -> isnan a = false /\ isnan b = false.
Proof. destruct a, b; intros H; split; try reflexivity; discriminate. Qed.

Lemma mul_notnan (a b : float64) :
  isnan (mul a b) = false -> isnan a = false /\ isnan b = false.
Proof. destruct a, b; intros H; split; try reflexivity; discriminate. Qed.

Lemma div_notnan (a b : float64) :
  isnan (div a b) = false -> isnan a = false /\ isnan b = false.
Proof. destruct a, b; intros H; split; try reflexivity; discriminate. Qed.

Lemma square_notnan (a : float64) : isnan (square a) = false -> isnan a = false.
Proof. intros H. by apply mul_notnan in H as [? _]. Qed.

Lemma sqrt_notnan (a : float64) : isnan (sqrt a) = false -> isnan a = false.
Proof. destruct a; intros H; try reflexivity; discriminate. Qed.

Lemma fold_add_notnan (l : list float64) (acc : float64) :
  isnan (fold_left add l acc) = false ->
  isnan acc = false /\ Forall (fun x => isnan x = false) l.
Proof.
  revert acc. induction l as [|x l IH]; intros acc H; simpl in *; [by split|].
  apply IH in H as [Hacc Hl]. apply add_notnan in Hacc as [? ?].
  split; [assumption|by constructor].
Qed.

Lemma fsum_notnan (l : list float64) :
  isnan (fsum l) = false -> Forall (fun x => isnan x = false) l.
Proof. intros H. by apply fold_add_notnan in H as [_ ?]. Qed.

Lemma skipna_notnan (l : list float64) :
  Forall (fun x => isnan x = false) l -> map skipna l = l.
Proof.
  induction 1 as [|x l Hx Hl IH]; simpl; [reflexivity|].
  unfold skipna at 1. by rewrite Hx, IH.
Qed.

Lemma nansum_fsum (l : list float64) :
  Forall (fun x => isnan x = false) l -> nansum l = fsum l.
Proof. intros H. unfold nansum, fsum. by rewrite skipna_notnan. Qed.

Lemma filter_notnan (l : list float64) :
  Forall (fun x => isnan x = false) l ->
  List.filter (fun x => negb (isnan x)) l = l.
Proof.
  induction 1 as [|x l Hx Hl IH]; simpl; [reflexivity|]. by rewrite Hx, IH.
Qed.

Lemma existsb_isnan (l : list float64) :
  existsb isnan l = false -> Forall (fun x => isnan x = false) l.
Proof.
  induction l as [|x l IH]; simpl; [constructor|].
  intros H. apply orb_false_elim in H as [? ?]. constructor; auto.
Qed.

Lemma fmax_notnan (l : list float64) :
  isnan (fmax l) = false -> Forall (fun x => isnan x = false) l.
Proof.
  destruct l as [|x l]; [constructor|]. unfold fmax.
  destruct (existsb isnan (x :: l)) eqn:E; [discriminate|].
  intros _. by apply existsb_isnan.
Qed.

Lemma fmin_notnan (l : list float64) :
  isnan (fmin l) = false -> Forall (fun x => isnan x = false) l.
Proof.
  destruct l as [|x l]; [constructor|]. unfold fmin.
  destruct (existsb isnan (x :: l)) eqn:E; [discriminate|].
  intros _. by apply existsb_isnan.
Qed.

Lemma Forall_existsb_isnan (l : list float64) :
  Forall (fun x => isnan x = false) l -> existsb isnan l = false.
Proof. induction 1 as [|x l Hx Hl IH]; simpl; [reflexivity|]. by rewrite Hx, IH. Qed.

Lemma nanmax_fmax (l : list float64) :
  Forall (fun x => isnan x = false) l -> nanmax l = fmax l.
Proof.
  intros H. unfold nanmax, fmax. rewrite filter_notnan by assumption.
  destruct l as [|x l]; [reflexivity|]. by rewrite Forall_existsb_isnan.
Qed.

Lemma nanmin_fmin (l : list float64) :
  Forall (fun x => isnan x = false) l -> nanmin l = fmin l.
Proof.
  intros H. unfold nanmin, fmin. rewrite filter_notnan by assumption.
  destruct l as [|x l]; [reflexivity|]. by rewrite Forall_existsb_isnan.
Qed.

Lemma defined_column (l : list float64) :
  isnan (fmax l) = false \/ isnan (fmin l) = false ->
  nanmax l = fmax l /\ nanmin l = fmin l.
Proof.
  intros H. assert (Forall (fun x => isnan x = false) l)
    by (destruct H; [by apply fmax_notnan | by apply fmin_notnan]).
  split; [by apply nanmax_fmax | by apply nanmin_fmin].
Qed.

Section Defined.
Variables m n : nat.
Variable D : nat -> nat -> float64.
Variable N : nat -> float64.
Variable W : nat -> float64.
Variable B : nat -> bool.

Lemma ideal_defined (j : nat) :
  isnan (best fmax fmin m D N W B j) = false
  \/ isnan (worst fmax fmin m D N W B j) = false ->
  best nanmax nanmin m D N W B j = best fmax fmin m D N W B j /\
  worst nanmax nanmin m D N W B j = worst fmax fmin m D N W B j.
Proof using Type.
  unfold best, worst. intros H.
  destruct (defined_column (over m (fun i => V D N W i j))) as [-> ->];
    [|by split].
  destruct (B j); tauto.
Qed.

Lemma distance_defined (ideal_s ideal_f : nat -> float64) (i : nat) :
  (forall j, isnan (ideal_f j) = false -> ideal_s j = ideal_f j) ->
  isnan (sqrt (fsum (over n (fun j => square (sub (V D N W i j) (ideal_f j))))))
  = false ->
  sqrt (nansum (over n (fun j => square (sub (V D N W i j) (ideal_s j)))))
  = sqrt (fsum (over n (fun j => square (sub (V D N W i j) (ideal_f j))))).
Proof using Type.
  intros Hideal H. apply sqrt_notnan, fsum_notnan in H.
  assert (E : over n (fun j => square (sub (V D N W i j) (ideal_s j)))
              = over n (fun j => square (sub (V D N W i j) (ideal_f j)))).
  { unfold over in *. apply map_ext_in. intros j Hj.
    rewrite List.Forall_forall in H.
    specialize (H _ (in_map (fun j => square (sub (V D N W i j) (ideal_f j))) _ _ Hj)).
    apply square_notnan, sub_notnan in H as [_ H]. by rewrite Hideal. }
  rewrite E. by rewrite nansum_fsum.
Qed.

(** Where the formula as written yields a number, leaving [NaN] out
    of the sums, maxima and minima changes nothing. *)
Lemma closeness_defined (i : nat) :
  isnan (closeness fsum fmax fmin m n D N W B i) = false ->
  closeness nansum nanmax nanmin m n D N W B i
  = closeness fsum fmax fmin m n D N W B i.
Proof using Type.
  unfold closeness. intros H.
  apply div_notnan in H as [Hm Hp]. apply add_notnan in Hp as [Hp _].
  unfold S_plus, S_minus in *.
  rewrite (distance_defined (best nanmax nanmin m D N W B)
             (best fmax fmin m D N W B)) by
    (exact Hp || (intros j Hb; eapply ideal_defined; eauto)).
  rewrite (distance_defined (worst nanmax nanmin m D N W B)
             (worst fmax fmin m D N W B)) by
    (exact Hm || (intros j Hb; eapply ideal_defined; eauto)).
  reflexivity.
Qed.
End Defined.

(** The norm of a float column is the norm of the formula, when that
    is a number. *)
Lemma float_column_norm (m : nat) (data : list column) (j : nat) (xs : list float64) :
  nth_error data j = Some (Float64 xs) -> length xs = m ->
  isnan (formula_norm m data j) = false ->
  nth j (col_norms data) nan = formula_norm m data j.
Proof.
  intros Hj Hlen Hn.
  assert (Hlt : (j < length data)%nat) by (apply nth_error_Some; congruence).
  assert (E : formula_norm m data j = sqrt (fsum (map square xs))).
  { unfold formula_norm, over, entry. rewrite (nth_error_nth _ _ _ Hj). simpl.
    do 2 f_equal.
    transitivity (map square (map (fun i => nth i xs nan) (seq 0 m)));
      [by rewrite map_map | by rewrite <- list_tabulate]. }
  rewrite E in *. apply sqrt_notnan, fsum_notnan in Hn.
  unfold col_norms.
  rewrite (nth_indep _ nan (sqrt (sum_squares (Float64 [])))) by (by rewrite length_map).
  rewrite (map_nth (fun c => sqrt (sum_squares c))).
  rewrite (nth_error_nth _ _ _ Hj). simpl. by rewrite nansum_fsum.
Qed.

Lemma formula_defined_V (m n : nat) (D : nat -> nat -> float64) (N W : nat -> float64)
    (B : nat -> bool) (i j : nat) :
  (j < n)%nat ->
  isnan (closeness fsum fmax fmin m n D N W B i) = false ->
  isnan (V D N W i j) = false.
Proof.
  unfold closeness, S_minus. intros Hj H.
  apply div_notnan in H as [H _]. apply sqrt_notnan, fsum_notnan in H.
  rewrite List.Forall_forall in H.
  assert (Hin : In j (seq 0 n)) by (apply in_seq; lia).
  specialize (H _ (in_map (fun j => square (sub (V D N W i j)
                                             (worst fmax fmin m D N W B j))) _ _ Hin)).
  by apply square_notnan, sub_notnan in H as [? _].
Qed.

(** The closeness looks at the norms of the [n] columns only. *)
Lemma closeness_norms (sum vmax vmin : list float64 -> float64) (m n : nat)
    (D : nat -> nat -> float64) (N N' W : nat -> float64) (B : nat -> bool) (i : nat) :
  (forall j, (j < n)%nat -> N j = N' j) ->
  closeness sum vmax vmin m n D N W B i = closeness sum vmax vmin m n D N' W B i.
Proof.
  intros HN.
  assert (HV : forall i' j, (j < n)%nat -> V D N W i' j = V D N' W i' j)
    by (intros i' j Hj; unfold V; by rewrite HN).
  assert (Hcol : forall j, (j < n)%nat ->
                 map (fun i' => V D N W i' j) (seq 0 m)
                 = map (fun i' => V D N' W i' j) (seq 0 m))
    by (intros j Hj; apply map_ext; intros i'; by apply HV).
  unfold closeness, S_plus, S_minus, best, worst, over.
  assert (Eb : map (fun j => square (sub (V D N W i j)
                 (if B j then vmax (map (fun i' => V D N W i' j) (seq 0 m))
                  else vmin (map (fun i' => V D N W i' j) (seq 0 m))))) (seq 0 n)
               = map (fun j => square (sub (V D N' W i j)
                 (if B j then vmax (map (fun i' => V D N' W i' j) (seq 0 m))
                  else vmin (map (fun i' => V D N' W i' j) (seq 0 m))))) (seq 0 n)).
  { apply map_ext_in. intros j Hj. apply in_seq in Hj.
    rewrite HV, Hcol by lia. reflexivity. }
  assert (Ew : map (fun j => square (sub (V D N W i j)
                 (if B j then vmin (map (fun i' => V D N W i' j) (seq 0 m))
                  else vmax (map (fun i' => V D N W i' j) (seq 0 m))))) (seq 0 n)
               = map (fun j => square (sub (V D N' W i j)
                 (if B j then vmin (map (fun i' => V D N' W i' j) (seq 0 m))
                  else vmax (map (fun i' => V D N' W i' j) (seq 0 m))))) (seq 0 n)).
  { apply map_ext_in. intros j Hj. apply in_seq in Hj.
    rewrite HV, Hcol by lia. reflexivity. }
  by rewrite Eb, Ew.
Qed.

Lemma int_column_norm (m : nat) (data : list column) (j : nat) (zs : list Z) :
  nth_error data j = Some (Int64 zs) -> length zs = m ->
  exact_squares (Int64 zs) ->
  nth j (col_norms data) nan = formula_norm m data j.
Proof.
  intros Hj Hlen Hx.
  assert (Hlt : (j < length data)%nat) by (apply nth_error_Some; congruence).
  unfold col_norms.
  rewrite (nth_indep _ nan (sqrt (sum_squares (Float64 [])))) by (by rewrite length_map).
  rewrite (map_nth (fun c => sqrt (sum_squares c))).
  rewrite (nth_error_nth _ _ _ Hj). rewrite Hx.
  unfold formula_norm, over, entry. rewrite (nth_error_nth _ _ _ Hj). simpl.
  do 2 f_equal.
  transitivity (map square (map (fun i => nth i (map of_int zs) nan) (seq 0 m)));
    [|by rewrite map_map].
  rewrite <- list_tabulate by (by rewrite length_map). by rewrite map_map.
Qed.

(** Wherever the formula of the specification yields a number, the
    score of the program is that number, on a table whose integer
    columns have exact sums of squares. *)
Theorem score_is_formula (m : nat) (data : list column) (weights : list float64)
    (impacts : list string) (i : nat) :
  Forall (fun c => length (values c) = m) data ->
  length weights = length data -> length impacts = length data ->
  Forall exact_squares data ->
  (i < m)%nat ->
  isnan (nth i (formula_score m data weights impacts) nan) = false ->
  nth i (topsis_score m data weights impacts) nan
  = nth i (formula_score m data weights impacts) nan.
Proof.
  intros Hcols Hw Hi Hx Hlt.
  rewrite topsis_score_skipna by assumption.
  unfold skipna_score, formula_score. rewrite !nth_map_seq by assumption.
  intros Hdef.
  rewrite <- (closeness_defined _ _ _ _ _ _ _ Hdef).
  apply closeness_norms. intros j Hj.
  pose proof (formula_defined_V _ _ _ _ _ _ _ j Hj Hdef) as HV.
  unfold V in HV. apply mul_notnan in HV as [HV _]. apply div_notnan in HV as [_ HN].
  destruct (nth_error data j) as [c|] eqn:Ec;
    [|apply nth_error_None in Ec; lia].
  pose proof (nth_error_In _ _ Ec) as Hin.
  rewrite List.Forall_forall in Hcols, Hx.
  specialize (Hcols _ Hin). specialize (Hx _ Hin).
  destruct c as [zs|xs].
  - apply (int_column_norm m data j zs); auto.
    simpl in Hcols. by rewrite length_map in Hcols.
  - by apply (float_column_norm m data j xs).
Qed.

Lemma score_is_formula_witness :
  nth 1 (topsis_score 3 close_table [one; one] ["+"; "-"]%string) nan
  = nth 1 (formula_score 3 close_table [one; one] ["+"; "-"]%string) nan.
Proof.
  apply score_is_formula.
  - repeat constructor.
  - reflexivity.
  - reflexivity.
  - repeat constructor; vm_compute; reflexivity.
  - lia.
  - vm_compute. reflexivity.
Defined.

(** *** Integer columns *)

(** C2 does not hold of the program: the squares of an [int64] column
    are taken and summed in [int64].  [large_frame] passes the six
    validations; the sum of the squares of its column [P1] wraps to a
    negative number, the norm is [NaN] and the sums of lines 86-87
    leave the whole column out.  The scores are 0 and 1 and [B] is
    ranked first, where the formula gives 0.6909830055716712 and
    0.3090169944283288 and ranks [A] first.  A column of zero norm
    ([zero_table]) is left out in the same way, where the formula is
    [0 / 0] for every row. *)
Theorem score_formula_fails_on_large_integers :
  first_failure raised_messages large_frame "1,1" "+,+" = None /\
  sum_squares (Int64 [4000000000; 1]%Z) = of_int (-2446744073709551615) /\
  col_norms large_table = [nan; sqrt (of_int 5)] /\
  topsis_rank 2 large_table [one; one] ["+"; "+"]%string
  = Ok ([zero; one], [2; 1]%Z) /\
  formula_score 2 large_table [one; one] ["+"; "+"]%string
  = [S754_finite false 6223821612823848 (-53);
     S754_finite false 5566755283834289 (-54)] /\
  rank_dense_desc (formula_score 2 large_table [one; one] ["+"; "+"]%string)
  = [Some 1; Some 2]%Z /\
  topsis_score 2 zero_table [one; one] ["+"; "+"]%string = [zero; one] /\
  formula_score 2 zero_table [one; one] ["+"; "+"]%string = [nan; nan].
Proof. split; [reflexivity|]. repeat split; vm_compute; reflexivity. Qed.

(** ** Reversing the impacts *)

Lemma add_comm (x y : float64) : add x y = add y x.
Proof.
  destruct x as [sx| sx| |sx mx ex], y as [sy| sy| |sy my ey]; try reflexivity.
  - destruct sx, sy; reflexivity.
  - destruct sx, sy; reflexivity.
  - unfold add. cbn [SFadd]. rewrite Z.min_comm.
    f_equal. apply Z.add_comm.
Qed.

Lemma ideal_points_flip (wd : matrix) (impacts : list string) :
  ideal_points wd (map flip_impact impacts)
  = (snd (ideal_points wd impacts), fst (ideal_points wd impacts)).
Proof.
  revert impacts. induction wd as [|col wd IH]; intros [|i impacts]; simpl;
    try reflexivity.
  rewrite IH. destruct (ideal_points wd impacts) as [b w]. simpl.
  unfold flip_impact. destruct (String.eqb i "+"); reflexivity.
Qed.

Lemma zip_add_comm (xs ys : list float64) :
  zip_with add xs ys = zip_with add ys xs.
Proof.
  revert ys. induction xs as [|x xs IH]; intros [|y ys]; simpl; try reflexivity.
  rewrite add_comm, IH. reflexivity.
Qed.

(** Reversing every impact exchanges the ideal best and the ideal worst
    point, hence the two distances of every alternative: where the
    score is [S- / (S+ + S-)], the score of the reversed run is
    [S+ / (S+ + S-)], from the same two distances and the same sum. *)
Theorem reversed_impacts_exchange_distances (m : nat) (data : list column)
    (weights : list float64) (impacts : list string) :
  topsis_score m data weights impacts
  = zip_with div (dist_worst m data weights impacts)
      (zip_with add (dist_best m data weights impacts)
         (dist_worst m data weights impacts)) /\
  topsis_score m data weights (map flip_impact impacts)
  = zip_with div (dist_best m data weights impacts)
      (zip_with add (dist_best m data weights impacts)
         (dist_worst m data weights impacts)).
Proof.
  unfold topsis_score, dist_best, dist_worst.
  rewrite ideal_points_flip.
  destruct (ideal_points (weighted data weights) impacts) as [b w]. simpl.
  split; [reflexivity|]. f_equal. apply zip_add_comm.
Qed.
End Machine.
